(** * MD5 (mod.ts): a shallow embedding and its properties

    The module exports one function, [md5], built from the private helpers
    [rol32], [blk], [hash], [update] and [addLength].  Every definition of
    the section "The program" below is a transcription of the function of
    the same name in [mod.ts].

    Conventions of the embedding.
    - A JavaScript [number] is a [Z].  Every number the program computes is
      an integer of magnitude far below 2^53: an array length, or a sum of
      at most four terms that are 32-bit values or working variables of
      [hash], themselves sums of a state word and at most 64 signed 32-bit
      values.  Floating-point addition is exact there, so [+] and [-] are
      the ones of [Z].  This holds of [hash] on a state whose words are
      below 2^51 in magnitude, as the words in [0, 2^32) of every state
      that [md5] passes are; on larger numbers the program rounds and [Z]
      does not.
    - The bit operators convert their operands with ToInt32 (ToUint32 for
      the left operand of [>>>]) and give a signed 32-bit result (an
      unsigned one for [>>>]); the conversions are written out.
    - A [Uint8Array] is a [list byte]; [length] is its number of elements.
      Storing a number into one converts it modulo 256; reading off its end
      gives [undefined], which the bit operators treat as 0.
    - [TypedArray.prototype.set] and [DataView.prototype.setUint32] throw a
      [RangeError] when the write does not fit: the program is run in a
      small monad [M] with that error.  The monad also counts the calls of
      the block compressor [hash], so that "the compressor is not invoked"
      can be stated.
    - The [while] loop of [update] is a [Fixpoint] on a fuel; [update]
      gives it more fuel than the loop can use, and the theorems prove that
      a result is produced.
    - The assignments [a = ...;] of [hash] to its working variables are
      written [assign a := ... in], an application of the rest of the body
      to the value, so that the 64 of them can be followed one at a time.

    The module [Rfc] writes the round functions and the block compressor
    as the specification words them, on unsigned 32-bit words, for
    comparison with [hash].

    The last sections of definitions give two other forms of [md5], both
    proved equal to the program: [md5_stream], one pass over the padded
    message, and [md5_fast], the same pass on 63-bit machine integers, by
    which the digest of a long input is evaluated. *)

From Stdlib Require Import ZArith List Lia Bool.
From Stdlib Require Import Init.Byte Strings.Ascii Strings.String.
From Stdlib Require Import Uint63.
Import ListNotations.
Local Open Scope Z_scope.

(* ================================================================== *)
(** * JavaScript numbers and bit operators *)

Module JS.

(** ToUint32 keeps the low 32 bits; ToInt32 reads them as a signed
    (two's complement) number. *)
Definition ToUint32 (x : Z) : Z := Z.land x 0xffffffff.
Definition ToInt32 (x : Z) : Z :=
  let u := ToUint32 x in
  if u <? 0x80000000 then u else u - 0x100000000.

(** [x << n], [x >>> n]: the shift count is the low five bits of [n]. *)
Definition shl (x n : Z) : Z :=
  ToInt32 (Z.shiftl (ToInt32 x) (Z.land (ToUint32 n) 0x1f)).
Definition shru (x n : Z) : Z :=
  Z.shiftr (ToUint32 x) (Z.land (ToUint32 n) 0x1f).

(** [x & y], [x | y], [x ^ y], [~x]. *)
Definition and (x y : Z) : Z := Z.land (ToInt32 x) (ToInt32 y).
Definition or (x y : Z) : Z := Z.lor (ToInt32 x) (ToInt32 y).
Definition xor (x y : Z) : Z := Z.lxor (ToInt32 x) (ToInt32 y).
Definition not (x : Z) : Z := Z.lnot (ToInt32 x).

End JS.

Declare Scope js_scope.
Declare Scope w32_scope.
Delimit Scope w32_scope with w32.
Delimit Scope js_scope with js.
Notation "x .<< n" := (JS.shl x n) (at level 51, left associativity) : js_scope.
Notation "x .>>> n" := (JS.shru x n) (at level 51, left associativity) : js_scope.
Notation "x .& y" := (JS.and x y) (at level 52, left associativity) : js_scope.
Notation "x .^ y" := (JS.xor x y) (at level 53, left associativity) : js_scope.
Notation "x .| y" := (JS.or x y) (at level 54, left associativity) : js_scope.
Notation ".~ x" := (JS.not x) (at level 35, right associativity) : js_scope.
Local Open Scope js_scope.

(* ================================================================== *)
(** * Typed arrays *)

Definition Uint8Array : Type := list byte.
Definition ArrayBuffer : Type := list byte.

(** The [length] property. *)
Definition len (a : Uint8Array) : Z := Z.of_nat (List.length a).

Definition byte_val (b : byte) : Z := Z.of_N (Byte.to_N b).

(** The conversion applied by a store into a [Uint8Array]. *)
Definition ToUint8 (v : Z) : byte :=
  match Byte.of_N (Z.to_N (Z.land v 0xff)) with
  | Some b => b
  | None => x00
  end.

(** [a[i]] as an operand of a bit operator: a missing element is
    [undefined], whose ToInt32 is 0. *)
Definition get (a : Uint8Array) (i : Z) : Z :=
  if i <? 0 then 0
  else match nth_error a (Z.to_nat i) with
       | Some b => byte_val b
       | None => 0
       end.

(** [a[i] = v]: a store outside the array is ignored. *)
Definition put (a : Uint8Array) (i : Z) (v : Z) : Uint8Array :=
  if (0 <=? i) && (i <? len a)
  then firstn (Z.to_nat i) a ++ ToUint8 v :: skipn (Z.to_nat (i + 1)) a
  else a.

(** [a.fill(v)]. *)
Definition fill (a : Uint8Array) (v : Z) : Uint8Array :=
  repeat (ToUint8 v) (List.length a).

(** [a.slice(start, end)]: negative indices count from the end, both are
    clamped to the array. *)
Definition clamp_index (a : Uint8Array) (k : Z) : Z :=
  if k <? 0 then Z.max (len a + k) 0 else Z.min k (len a).

Definition slice (a : Uint8Array) (start end_ : Z) : Uint8Array :=
  let k := clamp_index a start in
  let final := clamp_index a end_ in
  firstn (Z.to_nat (Z.max (final - k) 0)) (skipn (Z.to_nat k) a).

(** [a.slice(start)]. *)
Definition slice_from (a : Uint8Array) (start : Z) : Uint8Array :=
  slice a start (len a).

(* ================================================================== *)
(** * The monad of the program: RangeError, fuel, and the count of
      compressor calls *)

Inductive result (A : Type) : Type :=
| Ok (a : A)
| RangeError
| OutOfFuel.
Arguments Ok {A} a.
Arguments RangeError {A}.
Arguments OutOfFuel {A}.

(** A computation takes the number of [hash] calls made so far and gives
    its value with the new count. *)
Definition M (A : Type) : Type := nat -> result (A * nat).

Definition ret {A} (a : A) : M A := fun calls => Ok (a, calls).

Definition bind {A B} (m : M A) (f : A -> M B) : M B :=
  fun calls =>
    match m calls with
    | Ok (a, calls') => f a calls'
    | RangeError => RangeError
    | OutOfFuel => OutOfFuel
    end.

Definition throw_RangeError {A} : M A := fun _ => RangeError.
Definition out_of_fuel {A} : M A := fun _ => OutOfFuel.

Notation "x <- m ;; k" := (bind m (fun x => k))
  (at level 61, m at next level, right associativity).
Notation "' p <- m ;; k" := (bind m (fun x => let p := x in k))
  (at level 61, p pattern, m at next level, right associativity).

(** The value of a computation started with no call made. *)
Definition eval {A} (m : M A) : result A :=
  match m O with
  | Ok (a, _) => Ok a
  | RangeError => RangeError
  | OutOfFuel => OutOfFuel
  end.

(** [new Uint8Array(n)] and [new ArrayBuffer(n)]: [n] zero bytes; a negative
    length is refused. *)
Definition new_Uint8Array (n : Z) : M Uint8Array :=
  if n <? 0 then throw_RangeError else ret (repeat x00 (Z.to_nat n)).

Definition new_ArrayBuffer (n : Z) : M ArrayBuffer := new_Uint8Array n.

(** [target.set(source, offset)]. *)
Definition set (target source : Uint8Array) (offset : Z) : M Uint8Array :=
  if (offset <? 0) || (len target <? len source + offset)
  then throw_RangeError
  else ret (firstn (Z.to_nat offset) target ++ source
              ++ skipn (Z.to_nat (offset + len source)) target).

(** [new DataView(buf).setUint32(byteOffset, value, true)]. *)
Definition setUint32_le (buf : ArrayBuffer) (byteOffset value : Z)
  : M ArrayBuffer :=
  let v := JS.ToUint32 value in
  set buf [ToUint8 v; ToUint8 (v / 2 ^ 8); ToUint8 (v / 2 ^ 16);
           ToUint8 (v / 2 ^ 24)] byteOffset.

(* ================================================================== *)
(** * The program *)

Definition BLOCK_SIZE : Z := 64.

Definition rol32 (x n : Z) : Z := (x .<< n) .| (x .>>> (32 - n)).

Definition blk (block : Uint8Array) (i : Z) : Z :=
  get block i .|
  (get block (i + 1) .<< 8) .|
  (get block (i + 2) .<< 16) .|
  (get block (i + 3) .<< 24).

Definition State : Type := Z * Z * Z * Z.

(** An assignment [x = e;] to a local variable, followed by the rest [k] of
    the block, which sees the new value of [x]. *)
Definition assignment {A B : Type} (e : A) (k : A -> B) : B := k e.

Notation "'assign' x := e 'in' k" := (assignment e (fun x => k))
  (at level 10, x name, e at level 200, k at level 200, only parsing).

(** The body of [hash] up to its [return]: the sixteen message words and
    the 64 assignments to the working variables [a], [b], [c], [d]. *)
Definition hash_rounds (state : State) (block : Uint8Array) : Z * Z * Z * Z :=
  let '(a, b, c, d) := state in
  let x0 := blk block 0 in
  let x1 := blk block 4 in
  let x2 := blk block 8 in
  let x3 := blk block 12 in
  let x4 := blk block 16 in
  let x5 := blk block 20 in
  let x6 := blk block 24 in
  let x7 := blk block 28 in
  let x8 := blk block 32 in
  let x9 := blk block 36 in
  let xa := blk block 40 in
  let xb := blk block 44 in
  let xc := blk block 48 in
  let xd := blk block 52 in
  let xe := blk block 56 in
  let xf := blk block 60 in
  assign a := b + rol32 ((((c .^ d) .& b) .^ d) + a + x0 + 0xd76aa478) 7 in
  assign d := a + rol32 ((((b .^ c) .& a) .^ c) + d + x1 + 0xe8c7b756) 12 in
  assign c := d + rol32 ((((a .^ b) .& d) .^ b) + c + x2 + 0x242070db) 17 in
  assign b := c + rol32 ((((d .^ a) .& c) .^ a) + b + x3 + 0xc1bdceee) 22 in
  assign a := b + rol32 ((((c .^ d) .& b) .^ d) + a + x4 + 0xf57c0faf) 7 in
  assign d := a + rol32 ((((b .^ c) .& a) .^ c) + d + x5 + 0x4787c62a) 12 in
  assign c := d + rol32 ((((a .^ b) .& d) .^ b) + c + x6 + 0xa8304613) 17 in
  assign b := c + rol32 ((((d .^ a) .& c) .^ a) + b + x7 + 0xfd469501) 22 in
  assign a := b + rol32 ((((c .^ d) .& b) .^ d) + a + x8 + 0x698098d8) 7 in
  assign d := a + rol32 ((((b .^ c) .& a) .^ c) + d + x9 + 0x8b44f7af) 12 in
  assign c := d + rol32 ((((a .^ b) .& d) .^ b) + c + xa + 0xffff5bb1) 17 in
  assign b := c + rol32 ((((d .^ a) .& c) .^ a) + b + xb + 0x895cd7be) 22 in
  assign a := b + rol32 ((((c .^ d) .& b) .^ d) + a + xc + 0x6b901122) 7 in
  assign d := a + rol32 ((((b .^ c) .& a) .^ c) + d + xd + 0xfd987193) 12 in
  assign c := d + rol32 ((((a .^ b) .& d) .^ b) + c + xe + 0xa679438e) 17 in
  assign b := c + rol32 ((((d .^ a) .& c) .^ a) + b + xf + 0x49b40821) 22 in
  (* round 2 *)
  assign a := b + rol32 ((((b .^ c) .& d) .^ c) + a + x1 + 0xf61e2562) 5 in
  assign d := a + rol32 ((((a .^ b) .& c) .^ b) + d + x6 + 0xc040b340) 9 in
  assign c := d + rol32 ((((d .^ a) .& b) .^ a) + c + xb + 0x265e5a51) 14 in
  assign b := c + rol32 ((((c .^ d) .& a) .^ d) + b + x0 + 0xe9b6c7aa) 20 in
  assign a := b + rol32 ((((b .^ c) .& d) .^ c) + a + x5 + 0xd62f105d) 5 in
  assign d := a + rol32 ((((a .^ b) .& c) .^ b) + d + xa + 0x02441453) 9 in
  assign c := d + rol32 ((((d .^ a) .& b) .^ a) + c + xf + 0xd8a1e681) 14 in
  assign b := c + rol32 ((((c .^ d) .& a) .^ d) + b + x4 + 0xe7d3fbc8) 20 in
  assign a := b + rol32 ((((b .^ c) .& d) .^ c) + a + x9 + 0x21e1cde6) 5 in
  assign d := a + rol32 ((((a .^ b) .& c) .^ b) + d + xe + 0xc33707d6) 9 in
  assign c := d + rol32 ((((d .^ a) .& b) .^ a) + c + x3 + 0xf4d50d87) 14 in
  assign b := c + rol32 ((((c .^ d) .& a) .^ d) + b + x8 + 0x455a14ed) 20 in
  assign a := b + rol32 ((((b .^ c) .& d) .^ c) + a + xd + 0xa9e3e905) 5 in
  assign d := a + rol32 ((((a .^ b) .& c) .^ b) + d + x2 + 0xfcefa3f8) 9 in
  assign c := d + rol32 ((((d .^ a) .& b) .^ a) + c + x7 + 0x676f02d9) 14 in
  assign b := c + rol32 ((((c .^ d) .& a) .^ d) + b + xc + 0x8d2a4c8a) 20 in
  (* round 3 *)
  assign a := b + rol32 ((b .^ c .^ d) + a + x5 + 0xfffa3942) 4 in
  assign d := a + rol32 ((a .^ b .^ c) + d + x8 + 0x8771f681) 11 in
  assign c := d + rol32 ((d .^ a .^ b) + c + xb + 0x6d9d6122) 16 in
  assign b := c + rol32 ((c .^ d .^ a) + b + xe + 0xfde5380c) 23 in
  assign a := b + rol32 ((b .^ c .^ d) + a + x1 + 0xa4beea44) 4 in
  assign d := a + rol32 ((a .^ b .^ c) + d + x4 + 0x4bdecfa9) 11 in
  assign c := d + rol32 ((d .^ a .^ b) + c + x7 + 0xf6bb4b60) 16 in
  assign b := c + rol32 ((c .^ d .^ a) + b + xa + 0xbebfbc70) 23 in
  assign a := b + rol32 ((b .^ c .^ d) + a + xd + 0x289b7ec6) 4 in
  assign d := a + rol32 ((a .^ b .^ c) + d + x0 + 0xeaa127fa) 11 in
  assign c := d + rol32 ((d .^ a .^ b) + c + x3 + 0xd4ef3085) 16 in
  assign b := c + rol32 ((c .^ d .^ a) + b + x6 + 0x04881d05) 23 in
  assign a := b + rol32 ((b .^ c .^ d) + a + x9 + 0xd9d4d039) 4 in
  assign d := a + rol32 ((a .^ b .^ c) + d + xc + 0xe6db99e5) 11 in
  assign c := d + rol32 ((d .^ a .^ b) + c + xf + 0x1fa27cf8) 16 in
  assign b := c + rol32 ((c .^ d .^ a) + b + x2 + 0xc4ac5665) 23 in
  (* round 4 *)
  assign a := b + rol32 ((c .^ (b .| (.~ d))) + a + x0 + 0xf4292244) 6 in
  assign d := a + rol32 ((b .^ (a .| (.~ c))) + d + x7 + 0x432aff97) 10 in
  assign c := d + rol32 ((a .^ (d .| (.~ b))) + c + xe + 0xab9423a7) 15 in
  assign b := c + rol32 ((d .^ (c .| (.~ a))) + b + x5 + 0xfc93a039) 21 in
  assign a := b + rol32 ((c .^ (b .| (.~ d))) + a + xc + 0x655b59c3) 6 in
  assign d := a + rol32 ((b .^ (a .| (.~ c))) + d + x3 + 0x8f0ccc92) 10 in
  assign c := d + rol32 ((a .^ (d .| (.~ b))) + c + xa + 0xffeff47d) 15 in
  assign b := c + rol32 ((d .^ (c .| (.~ a))) + b + x1 + 0x85845dd1) 21 in
  assign a := b + rol32 ((c .^ (b .| (.~ d))) + a + x8 + 0x6fa87e4f) 6 in
  assign d := a + rol32 ((b .^ (a .| (.~ c))) + d + xf + 0xfe2ce6e0) 10 in
  assign c := d + rol32 ((a .^ (d .| (.~ b))) + c + x6 + 0xa3014314) 15 in
  assign b := c + rol32 ((d .^ (c .| (.~ a))) + b + xd + 0x4e0811a1) 21 in
  assign a := b + rol32 ((c .^ (b .| (.~ d))) + a + x4 + 0xf7537e82) 6 in
  assign d := a + rol32 ((b .^ (a .| (.~ c))) + d + xb + 0xbd3af235) 10 in
  assign c := d + rol32 ((a .^ (d .| (.~ b))) + c + x2 + 0x2ad7d2bb) 15 in
  assign b := c + rol32 ((d .^ (c .| (.~ a))) + b + x9 + 0xeb86d391) 21 in
  (a, b, c, d).

(** [hash]: the rounds, then the [return] that adds the input state and
    normalises each word with [>>> 0]. *)
Definition hash (state : State) (block : Uint8Array) : State :=
  let '(a, b, c, d) := hash_rounds state block in
  let '(s0, s1, s2, s3) := state in
  ((s0 + a) .>>> 0,
   (s1 + b) .>>> 0,
   (s2 + c) .>>> 0,
   (s3 + d) .>>> 0).

Arguments hash : simpl never.

(** The compressor as the program calls it: one more call is counted. *)
Definition call_hash (state : State) (block : Uint8Array) : M State :=
  fun calls => Ok (hash state block, S calls).

Definition addLength (n0 n1 length : Z) : Z * Z :=
  let n0 := n0 + length in
  let n1 := if n0 >? 0xffffffff then n1 + 1 else n1 in
  (n0 .>>> 0, n1).

(** The [while] loop of [update]: hash as many blocks as possible. *)
Fixpoint update_loop (fuel : nat) (state : State) (msg : Uint8Array) (i : Z)
  : M (State * Z) :=
  if i + BLOCK_SIZE <=? len msg then
    match fuel with
    | O => out_of_fuel
    | S fuel' =>
        state <- call_hash state (slice msg i (i + BLOCK_SIZE)) ;;
        update_loop fuel' state msg (i + BLOCK_SIZE)
    end
  else ret (state, i).

Definition update (state : State) (block : Uint8Array) (pos n0 n1 : Z)
    (msg : Uint8Array) : M (State * Uint8Array * Z * Z * Z) :=
  let free := BLOCK_SIZE - pos in
  '(state, block, pos) <-
    (if len msg <? free then
       block <- set block msg pos ;;
       ret (state, block, pos + len msg)
     else
       (* hash first block *)
       block <- set block (slice msg 0 free) pos ;;
       state <- call_hash state block ;;
       (* hash as many blocks as possible *)
       '(state, i) <- update_loop (List.length msg) state msg free ;;
       (* store leftover *)
       block <- set (fill block 0) (slice_from msg i) 0 ;;
       ret (state, block, len msg - i)) ;;
  let '(n0, n1) := addLength n0 n1 (len msg) in
  ret (state, block, pos, n0, n1).

Definition initial_state : State :=
  (0x67452301, 0xefcdab89, 0x98badcfe, 0x10325476).

(** [md5], lines 51 to 66: the padding buffer, and the counter words
    converted from bytes to bits. *)
Definition md5_pad (pos n0 n1 : Z) : M (Uint8Array * Z * Z) :=
  let padLen := BLOCK_SIZE - pos in
  let padLen := if padLen <? 9 then padLen + BLOCK_SIZE else padLen in
  pad <- new_Uint8Array padLen ;;
  let pad := put pad 0 0x80 in
  let '(n0, n1) := (n0 .<< 3, (n1 .<< 3) .| (n0 .>>> 29)) in
  let pad := put pad (len pad - 8) (n0 .& 0xff) in
  let pad := put pad (len pad - 7) ((n0 .>>> 8) .& 0xff) in
  let pad := put pad (len pad - 6) ((n0 .>>> 16) .& 0xff) in
  let pad := put pad (len pad - 5) ((n0 .>>> 24) .& 0xff) in
  let pad := put pad (len pad - 4) (n1 .& 0xff) in
  let pad := put pad (len pad - 3) ((n1 .>>> 8) .& 0xff) in
  let pad := put pad (len pad - 2) ((n1 .>>> 16) .& 0xff) in
  let pad := put pad (len pad - 1) ((n1 .>>> 24) .& 0xff) in
  ret (pad, n0, n1).

(** [md5], lines 77 to 84: the state written as four little-endian words. *)
Definition md5_digest (state : State) : M ArrayBuffer :=
  let '(s0, s1, s2, s3) := state in
  hash <- new_ArrayBuffer 16 ;;
  hash <- setUint32_le hash 0 s0 ;;
  hash <- setUint32_le hash 4 s1 ;;
  hash <- setUint32_le hash 8 s2 ;;
  hash <- setUint32_le hash 12 s3 ;;
  ret hash.

(** [md5], lines 51 to 84: what is done with the context once the whole
    message went through [update]. *)
Definition md5_final (state : State) (block : Uint8Array) (pos n0 n1 : Z)
  : M ArrayBuffer :=
  '(pad, n0, n1) <- md5_pad pos n0 n1 ;;
  '(state, block, pos, n0, n1) <- update state block pos n0 n1 pad ;;
  md5_digest state.

(** [md5] on the bytes [msg] of its argument (line 37 to 41 turn a string
    into its UTF-8 bytes and a buffer or view into the bytes it denotes). *)
Definition md5 (msg : Uint8Array) : M ArrayBuffer :=
  let state := initial_state in
  block <- new_Uint8Array BLOCK_SIZE ;;
  let pos := 0 in
  let n0 := 0 in
  let n1 := 0 in
  '(state, block, pos, n0, n1) <- update state block pos n0 n1 msg ;;
  md5_final state block pos n0 n1.

(** [new TextEncoder().encode(s)] for a string held as its UTF-8 bytes. *)
Definition TextEncoder_encode (s : string) : Uint8Array :=
  list_byte_of_string s.

(** [encodeHex] of the standard library [@std/encoding/hex], which the
    test suite and the documentation use to print a digest: two lower-case
    hexadecimal digits per byte. *)
Definition hex_digit (n : Z) : ascii :=
  ascii_of_nat (Z.to_nat (if n <? 10 then 48 + n else 87 + n)).

Fixpoint encodeHex (bytes : list byte) : string :=
  match bytes with
  | [] => EmptyString
  | b :: rest =>
      String (hex_digit (byte_val b / 16))
        (String (hex_digit (byte_val b mod 16)) (encodeHex rest))
  end.

(** The test inputs made of the letter a: [n] bytes 0x61. *)
Definition all_a (n : Z) : Uint8Array := repeat "a"%byte (Z.to_nat n).

(** The result of a computation, printed. *)
Definition hex_of (r : result ArrayBuffer) : result string :=
  match r with
  | Ok d => Ok (encodeHex d)
  | RangeError => RangeError
  | OutOfFuel => OutOfFuel
  end.

(* ================================================================== *)
(** * Harness: feeding a message in chunks *)

(** The hasher context that [update] takes and returns. *)
Definition Context : Type := State * Uint8Array * Z * Z * Z.

(** The chunks go through [update] one at a time, each call starting from
    the context the previous one returned. *)
Fixpoint feed (ctx : Context) (chunks : list Uint8Array) : M Context :=
  match chunks with
  | [] => ret ctx
  | msg :: rest =>
      let '(state, block, pos, n0, n1) := ctx in
      ctx <- update state block pos n0 n1 msg ;;
      feed ctx rest
  end.



(** A little-endian byte string read as a number. *)
Definition le_decode (bytes : list byte) : Z :=
  fold_right (fun b acc => byte_val b + 256 * acc) 0 bytes.

(** The last [n] elements of an array. *)
Definition last_bytes (n : nat) (a : Uint8Array) : list byte :=
  skipn (List.length a - n) a.

(** A 32-bit word, as the data model has it: unsigned. *)
Definition word (x : Z) : Prop := 0 <= x < 2 ^ 32.

Definition State_ok (state : State) : Prop :=
  let '(a, b, c, d) := state in word a /\ word b /\ word c /\ word d.

(* ================================================================== *)
(** * The round functions and the compressor as the specification writes
      them

    F, G, H and I on unsigned 32-bit words; NOT is the complement within
    32 bits. *)

Module Rfc.

Definition NOT (x : Z) : Z := Z.lnot x mod 2 ^ 32.
Definition F (b c d : Z) : Z := Z.lor (Z.land b c) (Z.land (NOT b) d).
Definition G (b c d : Z) : Z := Z.lor (Z.land b d) (Z.land c (NOT d)).
Definition H (b c d : Z) : Z := Z.lxor (Z.lxor b c) d.
Definition I (b c d : Z) : Z := Z.lxor c (Z.lor b (NOT d)).

(** The block compressor in the same words.  All arithmetic is modulo
    2^32; [rotl] rotates a 32-bit word to the left; [X] gives the sixteen
    little-endian words of the block. *)
Definition add (x y : Z) : Z := (x + y) mod 2 ^ 32.

Definition rotl (x s : Z) : Z :=
  Z.lor (Z.shiftl x s mod 2 ^ 32) (Z.shiftr x (32 - s)).

Definition X (block : list byte) (k : nat) : Z :=
  le_decode (firstn 4 (skipn (4 * k) block)).

(** The 64 additive constants, [floor (2^32 * abs (sin i))] for [i] from 1
    to 64. *)
Definition T : list Z :=
  [0xd76aa478; 0xe8c7b756; 0x242070db; 0xc1bdceee;
   0xf57c0faf; 0x4787c62a; 0xa8304613; 0xfd469501;
   0x698098d8; 0x8b44f7af; 0xffff5bb1; 0x895cd7be;
   0x6b901122; 0xfd987193; 0xa679438e; 0x49b40821;
   0xf61e2562; 0xc040b340; 0x265e5a51; 0xe9b6c7aa;
   0xd62f105d; 0x02441453; 0xd8a1e681; 0xe7d3fbc8;
   0x21e1cde6; 0xc33707d6; 0xf4d50d87; 0x455a14ed;
   0xa9e3e905; 0xfcefa3f8; 0x676f02d9; 0x8d2a4c8a;
   0xfffa3942; 0x8771f681; 0x6d9d6122; 0xfde5380c;
   0xa4beea44; 0x4bdecfa9; 0xf6bb4b60; 0xbebfbc70;
   0x289b7ec6; 0xeaa127fa; 0xd4ef3085; 0x04881d05;
   0xd9d4d039; 0xe6db99e5; 0x1fa27cf8; 0xc4ac5665;
   0xf4292244; 0x432aff97; 0xab9423a7; 0xfc93a039;
   0x655b59c3; 0x8f0ccc92; 0xffeff47d; 0x85845dd1;
   0x6fa87e4f; 0xfe2ce6e0; 0xa3014314; 0x4e0811a1;
   0xf7537e82; 0xbd3af235; 0x2ad7d2bb; 0xeb86d391].

(** Round [r] (counted from 0) mixes with F, G, H or I, takes the message
    word of index [index r i] at its operation [i] (counted from 0 to 63)
    and rotates by one of four amounts in turn. *)
Definition round_function (r : nat) : Z -> Z -> Z -> Z :=
  match r with
  | 0%nat => F
  | 1%nat => G
  | 2%nat => H
  | _ => I
  end.

Definition index (r i : nat) : nat :=
  match r with
  | 0%nat => i mod 16
  | 1%nat => (5 * i + 1) mod 16
  | 2%nat => (3 * i + 5) mod 16
  | _ => (7 * i) mod 16
  end.

Definition amounts : list (list Z) :=
  [[7; 12; 17; 22]; [5; 9; 14; 20]; [4; 11; 16; 23]; [6; 10; 15; 21]].

Definition amount (r i : nat) : Z := nth (i mod 4) (nth r amounts []) 0.

(** One operation, [a = b + ((a + f(b,c,d) + X[k] + T[i]) <<< s)]: it
    updates one of the four variables from the other three.  The variables
    take the roles a, b, c, d in turn, which the rotation of the tuple
    does; after 64 operations each is back in its place. *)
Definition operation (X : nat -> Z) (st : Z * Z * Z * Z)
    (op : (Z -> Z -> Z -> Z) * (nat * Z * Z)) : Z * Z * Z * Z :=
  let '(f, (k, s, t)) := op in
  let '(a, b, c, d) := st in
  (d, add b (rotl (add (add (add a (f b c d)) (X k)) t) s), b, c).

Definition schedule : list ((Z -> Z -> Z -> Z) * (nat * Z * Z)) :=
  map (fun i : nat =>
         let r := (i / 16)%nat in
         (round_function r, (index r i, amount r i, nth i T 0)))
      (seq 0 64).

Definition rounds (X : nat -> Z) (st : Z * Z * Z * Z) : Z * Z * Z * Z :=
  fold_left (operation X) schedule st.

(** The new state: the sum, word by word, of the state and of the working
    values that the 64 operations end with. *)
Definition compress (state : State) (block : list byte) : State :=
  let '(s0, s1, s2, s3) := state in
  let '(a, b, c, d) := rounds (X block) state in
  (add s0 a, add s1 b, add s2 c, add s3 d).

End Rfc.

(** A number of the program and the 32-bit word it stands for. *)
Definition Low (z w : Z) : Prop := JS.ToUint32 z = w.

Definition Low4 (s s' : Z * Z * Z * Z) : Prop :=
  let '(a, b, c, d) := s in
  let '(a', b', c', d') := s' in
  Low a a' /\ Low b b' /\ Low c c' /\ Low d d'.

(* ================================================================== *)
(** * The message as a stream of bytes

    [absorb] is what the buffering amounts to: the bytes enter a buffer one
    by one, and each time it holds 64 of them they are compressed into the
    state and the buffer is emptied. *)

Definition absorb_byte (acc : State * list byte) (b : byte)
  : State * list byte :=
  let '(state, buf) := acc in
  let buf := buf ++ [b] in
  if Nat.eqb (List.length buf) 64 then (hash state buf, []) else (state, buf).

Definition absorb (acc : State * list byte) (bytes : list byte)
  : State * list byte :=
  fold_left absorb_byte bytes acc.

(** The digest bytes of a state. *)
Definition word_le (v : Z) : list byte :=
  let v := JS.ToUint32 v in
  [ToUint8 v; ToUint8 (v / 2 ^ 8); ToUint8 (v / 2 ^ 16); ToUint8 (v / 2 ^ 24)].

Definition digest_bytes (state : State) : list byte :=
  let '(s0, s1, s2, s3) := state in
  word_le s0 ++ word_le s1 ++ word_le s2 ++ word_le s3.

(** The padding of [md5_pad], which produces one whatever the count of
    calls. *)
Definition padding (pos n0 n1 : Z) : Uint8Array * Z * Z :=
  match md5_pad pos n0 n1 O with
  | Ok (r, _) => r
  | _ => ([], 0, 0)
  end.

(** The length of the padding buffer. *)
Definition padLen_of (pos : Z) : Z :=
  if BLOCK_SIZE - pos <? 9 then BLOCK_SIZE - pos + BLOCK_SIZE
  else BLOCK_SIZE - pos.

(** The four bytes that the finalization stores for a counter word. *)
Definition counter_bytes (x : Z) : list byte :=
  [ToUint8 (x .& 0xff); ToUint8 ((x .>>> 8) .& 0xff);
   ToUint8 ((x .>>> 16) .& 0xff); ToUint8 ((x .>>> 24) .& 0xff)].

(** [md5] in one pass over the padded message. *)
Definition md5_stream (msg : Uint8Array) : ArrayBuffer :=
  let '(n0, n1) := addLength 0 0 (len msg) in
  let '(pad, _, _) := padding (len msg mod 64) n0 n1 in
  digest_bytes (fst (absorb (initial_state, []) (msg ++ pad))).

(* ================================================================== *)
(** * The compressor on machine integers

    The same 64 steps on 63-bit integers that hold 32-bit words: every sum
    is masked to 32 bits.  [rounds32] and [hash32] follow [hash_rounds] and
    [hash] line by line. *)

Module W32.

Local Open Scope uint63_scope.

Definition mask : int := 0xffffffff.
Definition add (x y : int) : int := (x + y) land mask.
Definition and (x y : int) : int := x land y.
Definition or (x y : int) : int := x lor y.
Definition xor (x y : int) : int := x lxor y.
Definition not (x : int) : int := x lxor mask.
Definition shl (x n : int) : int := (x << n) land mask.
Definition rol32 (x n : int) : int := or (shl x n) (x >> (32 - n)).

Definition of_byte (b : byte) : int := Uint63.of_Z (byte_val b).
Definition get (block : list byte) (i : nat) : int :=
  of_byte (nth i block x00).
Definition blk (block : list byte) (i : nat) : int :=
  or (or (or (get block i) (shl (get block (i + 1)) 8))
         (shl (get block (i + 2)) 16))
     (shl (get block (i + 3)) 24).

End W32.

Arguments W32.add (x y)%_w32.
Arguments W32.and (x y)%_w32.
Arguments W32.or (x y)%_w32.
Arguments W32.xor (x y)%_w32.
Arguments W32.not x%_w32.
Arguments W32.rol32 x%_w32 n%_uint63.

Notation "x + y" := (W32.add x y) : w32_scope.
Notation "x .& y" := (W32.and x y) (at level 52, left associativity) : w32_scope.
Notation "x .^ y" := (W32.xor x y) (at level 53, left associativity) : w32_scope.
Notation "x .| y" := (W32.or x y) (at level 54, left associativity) : w32_scope.
Notation ".~ x" := (W32.not x) (at level 35, right associativity) : w32_scope.

Definition State32 : Type := int * int * int * int.

Definition rounds32 (state : State32) (block : list byte) : State32 :=
  (let '(a, b, c, d) := state in
  let x0 := W32.blk block 0 in
  let x1 := W32.blk block 4 in
  let x2 := W32.blk block 8 in
  let x3 := W32.blk block 12 in
  let x4 := W32.blk block 16 in
  let x5 := W32.blk block 20 in
  let x6 := W32.blk block 24 in
  let x7 := W32.blk block 28 in
  let x8 := W32.blk block 32 in
  let x9 := W32.blk block 36 in
  let xa := W32.blk block 40 in
  let xb := W32.blk block 44 in
  let xc := W32.blk block 48 in
  let xd := W32.blk block 52 in
  let xe := W32.blk block 56 in
  let xf := W32.blk block 60 in
  assign a := b + W32.rol32 ((((c .^ d) .& b) .^ d) + a + x0 + 0xd76aa478%uint63) 7%uint63 in
  assign d := a + W32.rol32 ((((b .^ c) .& a) .^ c) + d + x1 + 0xe8c7b756%uint63) 12%uint63 in
  assign c := d + W32.rol32 ((((a .^ b) .& d) .^ b) + c + x2 + 0x242070db%uint63) 17%uint63 in
  assign b := c + W32.rol32 ((((d .^ a) .& c) .^ a) + b + x3 + 0xc1bdceee%uint63) 22%uint63 in
  assign a := b + W32.rol32 ((((c .^ d) .& b) .^ d) + a + x4 + 0xf57c0faf%uint63) 7%uint63 in
  assign d := a + W32.rol32 ((((b .^ c) .& a) .^ c) + d + x5 + 0x4787c62a%uint63) 12%uint63 in
  assign c := d + W32.rol32 ((((a .^ b) .& d) .^ b) + c + x6 + 0xa8304613%uint63) 17%uint63 in
  assign b := c + W32.rol32 ((((d .^ a) .& c) .^ a) + b + x7 + 0xfd469501%uint63) 22%uint63 in
  assign a := b + W32.rol32 ((((c .^ d) .& b) .^ d) + a + x8 + 0x698098d8%uint63) 7%uint63 in
  assign d := a + W32.rol32 ((((b .^ c) .& a) .^ c) + d + x9 + 0x8b44f7af%uint63) 12%uint63 in
  assign c := d + W32.rol32 ((((a .^ b) .& d) .^ b) + c + xa + 0xffff5bb1%uint63) 17%uint63 in
  assign b := c + W32.rol32 ((((d .^ a) .& c) .^ a) + b + xb + 0x895cd7be%uint63) 22%uint63 in
  assign a := b + W32.rol32 ((((c .^ d) .& b) .^ d) + a + xc + 0x6b901122%uint63) 7%uint63 in
  assign d := a + W32.rol32 ((((b .^ c) .& a) .^ c) + d + xd + 0xfd987193%uint63) 12%uint63 in
  assign c := d + W32.rol32 ((((a .^ b) .& d) .^ b) + c + xe + 0xa679438e%uint63) 17%uint63 in
  assign b := c + W32.rol32 ((((d .^ a) .& c) .^ a) + b + xf + 0x49b40821%uint63) 22%uint63 in
  (* round 2 *)
  assign a := b + W32.rol32 ((((b .^ c) .& d) .^ c) + a + x1 + 0xf61e2562%uint63) 5%uint63 in
  assign d := a + W32.rol32 ((((a .^ b) .& c) .^ b) + d + x6 + 0xc040b340%uint63) 9%uint63 in
  assign c := d + W32.rol32 ((((d .^ a) .& b) .^ a) + c + xb + 0x265e5a51%uint63) 14%uint63 in
  assign b := c + W32.rol32 ((((c .^ d) .& a) .^ d) + b + x0 + 0xe9b6c7aa%uint63) 20%uint63 in
  assign a := b + W32.rol32 ((((b .^ c) .& d) .^ c) + a + x5 + 0xd62f105d%uint63) 5%uint63 in
  assign d := a + W32.rol32 ((((a .^ b) .& c) .^ b) + d + xa + 0x02441453%uint63) 9%uint63 in
  assign c := d + W32.rol32 ((((d .^ a) .& b) .^ a) + c + xf + 0xd8a1e681%uint63) 14%uint63 in
  assign b := c + W32.rol32 ((((c .^ d) .& a) .^ d) + b + x4 + 0xe7d3fbc8%uint63) 20%uint63 in
  assign a := b + W32.rol32 ((((b .^ c) .& d) .^ c) + a + x9 + 0x21e1cde6%uint63) 5%uint63 in
  assign d := a + W32.rol32 ((((a .^ b) .& c) .^ b) + d + xe + 0xc33707d6%uint63) 9%uint63 in
  assign c := d + W32.rol32 ((((d .^ a) .& b) .^ a) + c + x3 + 0xf4d50d87%uint63) 14%uint63 in
  assign b := c + W32.rol32 ((((c .^ d) .& a) .^ d) + b + x8 + 0x455a14ed%uint63) 20%uint63 in
  assign a := b + W32.rol32 ((((b .^ c) .& d) .^ c) + a + xd + 0xa9e3e905%uint63) 5%uint63 in
  assign d := a + W32.rol32 ((((a .^ b) .& c) .^ b) + d + x2 + 0xfcefa3f8%uint63) 9%uint63 in
  assign c := d + W32.rol32 ((((d .^ a) .& b) .^ a) + c + x7 + 0x676f02d9%uint63) 14%uint63 in
  assign b := c + W32.rol32 ((((c .^ d) .& a) .^ d) + b + xc + 0x8d2a4c8a%uint63) 20%uint63 in
  (* round 3 *)
  assign a := b + W32.rol32 ((b .^ c .^ d) + a + x5 + 0xfffa3942%uint63) 4%uint63 in
  assign d := a + W32.rol32 ((a .^ b .^ c) + d + x8 + 0x8771f681%uint63) 11%uint63 in
  assign c := d + W32.rol32 ((d .^ a .^ b) + c + xb + 0x6d9d6122%uint63) 16%uint63 in
  assign b := c + W32.rol32 ((c .^ d .^ a) + b + xe + 0xfde5380c%uint63) 23%uint63 in
  assign a := b + W32.rol32 ((b .^ c .^ d) + a + x1 + 0xa4beea44%uint63) 4%uint63 in
  assign d := a + W32.rol32 ((a .^ b .^ c) + d + x4 + 0x4bdecfa9%uint63) 11%uint63 in
  assign c := d + W32.rol32 ((d .^ a .^ b) + c + x7 + 0xf6bb4b60%uint63) 16%uint63 in
  assign b := c + W32.rol32 ((c .^ d .^ a) + b + xa + 0xbebfbc70%uint63) 23%uint63 in
  assign a := b + W32.rol32 ((b .^ c .^ d) + a + xd + 0x289b7ec6%uint63) 4%uint63 in
  assign d := a + W32.rol32 ((a .^ b .^ c) + d + x0 + 0xeaa127fa%uint63) 11%uint63 in
  assign c := d + W32.rol32 ((d .^ a .^ b) + c + x3 + 0xd4ef3085%uint63) 16%uint63 in
  assign b := c + W32.rol32 ((c .^ d .^ a) + b + x6 + 0x04881d05%uint63) 23%uint63 in
  assign a := b + W32.rol32 ((b .^ c .^ d) + a + x9 + 0xd9d4d039%uint63) 4%uint63 in
  assign d := a + W32.rol32 ((a .^ b .^ c) + d + xc + 0xe6db99e5%uint63) 11%uint63 in
  assign c := d + W32.rol32 ((d .^ a .^ b) + c + xf + 0x1fa27cf8%uint63) 16%uint63 in
  assign b := c + W32.rol32 ((c .^ d .^ a) + b + x2 + 0xc4ac5665%uint63) 23%uint63 in
  (* round 4 *)
  assign a := b + W32.rol32 ((c .^ (b .| (.~ d))) + a + x0 + 0xf4292244%uint63) 6%uint63 in
  assign d := a + W32.rol32 ((b .^ (a .| (.~ c))) + d + x7 + 0x432aff97%uint63) 10%uint63 in
  assign c := d + W32.rol32 ((a .^ (d .| (.~ b))) + c + xe + 0xab9423a7%uint63) 15%uint63 in
  assign b := c + W32.rol32 ((d .^ (c .| (.~ a))) + b + x5 + 0xfc93a039%uint63) 21%uint63 in
  assign a := b + W32.rol32 ((c .^ (b .| (.~ d))) + a + xc + 0x655b59c3%uint63) 6%uint63 in
  assign d := a + W32.rol32 ((b .^ (a .| (.~ c))) + d + x3 + 0x8f0ccc92%uint63) 10%uint63 in
  assign c := d + W32.rol32 ((a .^ (d .| (.~ b))) + c + xa + 0xffeff47d%uint63) 15%uint63 in
  assign b := c + W32.rol32 ((d .^ (c .| (.~ a))) + b + x1 + 0x85845dd1%uint63) 21%uint63 in
  assign a := b + W32.rol32 ((c .^ (b .| (.~ d))) + a + x8 + 0x6fa87e4f%uint63) 6%uint63 in
  assign d := a + W32.rol32 ((b .^ (a .| (.~ c))) + d + xf + 0xfe2ce6e0%uint63) 10%uint63 in
  assign c := d + W32.rol32 ((a .^ (d .| (.~ b))) + c + x6 + 0xa3014314%uint63) 15%uint63 in
  assign b := c + W32.rol32 ((d .^ (c .| (.~ a))) + b + xd + 0x4e0811a1%uint63) 21%uint63 in
  assign a := b + W32.rol32 ((c .^ (b .| (.~ d))) + a + x4 + 0xf7537e82%uint63) 6%uint63 in
  assign d := a + W32.rol32 ((b .^ (a .| (.~ c))) + d + xb + 0xbd3af235%uint63) 10%uint63 in
  assign c := d + W32.rol32 ((a .^ (d .| (.~ b))) + c + x2 + 0x2ad7d2bb%uint63) 15%uint63 in
  assign b := c + W32.rol32 ((d .^ (c .| (.~ a))) + b + x9 + 0xeb86d391%uint63) 21%uint63 in
  (a, b, c, d))%w32.

Definition hash32 (state : State32) (block : list byte) : State32 :=
  (let '(a, b, c, d) := rounds32 state block in
   let '(s0, s1, s2, s3) := state in
   (s0 + a, s1 + b, s2 + c, s3 + d))%w32.

Definition initial32 : State32 :=
  (0x67452301, 0xefcdab89, 0x98badcfe, 0x10325476)%uint63.

Definition state_of32 (state : State32) : State :=
  let '(a, b, c, d) := state in
  (Uint63.to_Z a, Uint63.to_Z b, Uint63.to_Z c, Uint63.to_Z d).

(** The whole blocks of [bytes], compressed in turn. *)
Fixpoint absorb32 (fuel : nat) (state : State32) (bytes : list byte)
  : State32 :=
  match fuel with
  | O => state
  | S fuel' =>
      match skipn 63 bytes with
      | [] => state
      | _ :: rest => absorb32 fuel' (hash32 state (firstn 64 bytes)) rest
      end
  end.

Definition md5_fast (msg : Uint8Array) : ArrayBuffer :=
  let '(n0, n1) := addLength 0 0 (len msg) in
  let '(pad, _, _) := padding (len msg mod 64) n0 n1 in
  digest_bytes
    (state_of32 (absorb32 (List.length (msg ++ pad)) initial32 (msg ++ pad))).

(** A number and the machine integer that holds its low 32 bits. *)
Definition R (z : Z) (i : int) : Prop := JS.ToUint32 z = Uint63.to_Z i.

Definition Rel4 (s : Z * Z * Z * Z) (s' : State32) : Prop :=
  let '(a, b, c, d) := s in
  let '(a', b', c', d') := s' in
  R a a' /\ R b b' /\ R c c' /\ R d d'.

(** A machine state whose four integers are 32-bit words. *)
Definition Canon (s' : State32) : Prop := Rel4 (state_of32 s') s'.

(* ================================================================== *)
(** * Definitions for the further properties *)

(** The message cut into [n] blocks of 64 bytes. *)
Fixpoint blocks64 (n : nat) (bytes : list byte) : list (list byte) :=
  match n with
  | O => []
  | S n' => firstn 64 bytes :: blocks64 n' (skipn 64 bytes)
  end.

(** Four numbers below 2^38 in magnitude: integers that JavaScript adds
    exactly. *)
Definition Exact4 (s : Z * Z * Z * Z) : Prop :=
  let '(a, b, c, d) := s in
  - 2 ^ 38 < a < 2 ^ 38 /\ - 2 ^ 38 < b < 2 ^ 38
  /\ - 2 ^ 38 < c < 2 ^ 38 /\ - 2 ^ 38 < d < 2 ^ 38.

(** A state whose words are below 2^51 in magnitude, and four numbers
    below 2^52 in magnitude: every sum that [hash] forms of such a state
    is an integer below 2^53, which JavaScript adds exactly. *)
Definition State_within (state : State) : Prop :=
  let '(a, b, c, d) := state in
  - 2 ^ 51 <= a < 2 ^ 51 /\ - 2 ^ 51 <= b < 2 ^ 51
  /\ - 2 ^ 51 <= c < 2 ^ 51 /\ - 2 ^ 51 <= d < 2 ^ 51.

Definition Below52 (s : Z * Z * Z * Z) : Prop :=
  let '(a, b, c, d) := s in
  - 2 ^ 52 < a < 2 ^ 52 /\ - 2 ^ 52 < b < 2 ^ 52
  /\ - 2 ^ 52 < c < 2 ^ 52 /\ - 2 ^ 52 < d < 2 ^ 52.

(* ================================================================== *)
(** * Facts on the bit operators *)

Section BitOperators.

Lemma ToUint32_mod (x : Z) : JS.ToUint32 x = x mod 2 ^ 32.
Proof.
  unfold JS.ToUint32. change 0xffffffff with (Z.ones 32).
  apply Z.land_ones. lia.
Qed.

Lemma ToUint32_range (x : Z) : word (JS.ToUint32 x).
Proof.
  unfold word. rewrite ToUint32_mod. apply Z.mod_pos_bound. lia.
Qed.

Lemma ToUint32_word (x : Z) : word x -> JS.ToUint32 x = x.
Proof.
  unfold word. intros Hx. rewrite ToUint32_mod. apply Z.mod_small. exact Hx.
Qed.

Lemma ToInt32_range (x : Z) : - 2 ^ 31 <= JS.ToInt32 x < 2 ^ 31.
Proof.
  unfold JS.ToInt32. pose proof (ToUint32_range x) as H. unfold word in H.
  destruct (JS.ToUint32 x <? 0x80000000) eqn:E.
  - apply Z.ltb_lt in E. lia.
  - apply Z.ltb_ge in E. lia.
Qed.

Lemma ToInt32_mod (x : Z) : JS.ToInt32 x mod 2 ^ 32 = x mod 2 ^ 32.
Proof.
  unfold JS.ToInt32.
  destruct (JS.ToUint32 x <? 0x80000000).
  - rewrite ToUint32_mod. apply Z.mod_mod. lia.
  - rewrite ToUint32_mod.
    change 0x100000000 with (1 * 2 ^ 32).
    rewrite <- (Z.add_opp_r (x mod 2 ^ 32)), <- Z.mul_opp_l.
    rewrite Z.mod_add by lia. apply Z.mod_mod. lia.
Qed.

Lemma ToInt32_small (x : Z) : - 2 ^ 31 <= x < 2 ^ 31 -> JS.ToInt32 x = x.
Proof.
  intros Hx. unfold JS.ToInt32. rewrite ToUint32_mod.
  destruct (Z_lt_le_dec x 0) as [Hneg | Hpos].
  - assert (Hm : x mod 2 ^ 32 = x + 2 ^ 32).
    { symmetry. apply (Z.mod_unique _ _ (-1)); lia. }
    rewrite Hm.
    destruct (x + 2 ^ 32 <? 0x80000000) eqn:E.
    + apply Z.ltb_lt in E. lia.
    + lia.
  - rewrite Z.mod_small by lia.
    destruct (x <? 0x80000000) eqn:E.
    + reflexivity.
    + apply Z.ltb_ge in E. lia.
Qed.

Lemma testbit_ToUint32 (x n : Z) :
  0 <= n -> Z.testbit (JS.ToUint32 x) n = (n <? 32) && Z.testbit x n.
Proof.
  intros Hn. rewrite ToUint32_mod. apply Z.testbit_mod_pow2. lia.
Qed.

Lemma testbit_ToInt32 (x n : Z) :
  0 <= n < 32 -> Z.testbit (JS.ToInt32 x) n = Z.testbit x n.
Proof.
  intros Hn.
  rewrite <- (Z.mod_pow2_bits_low (JS.ToInt32 x) 32 n) by lia.
  rewrite ToInt32_mod. apply Z.mod_pow2_bits_low. lia.
Qed.

Lemma shru_0 (x : Z) : x .>>> 0 = x mod 2 ^ 32.
Proof.
  unfold JS.shru. change (Z.land (JS.ToUint32 0) 0x1f) with 0.
  rewrite Z.shiftr_0_r. apply ToUint32_mod.
Qed.

End BitOperators.

(* ================================================================== *)
(** * The round expressions of [hash] *)

Section RoundFunctions.

Lemma testbit_NOT (x n : Z) :
  0 <= n -> Z.testbit (Rfc.NOT x) n = (n <? 32) && negb (Z.testbit x n).
Proof.
  intros Hn. unfold Rfc.NOT.
  rewrite Z.testbit_mod_pow2 by lia. rewrite Z.lnot_spec by lia. reflexivity.
Qed.

(** Bit [n] of both sides, for [n] below 32 and from 32 on. *)
Ltac push_testbit :=
  repeat first
    [ rewrite Z.lxor_spec | rewrite Z.land_spec | rewrite Z.lor_spec
    | rewrite testbit_NOT by lia | rewrite testbit_ToUint32 by lia
    | rewrite Z.lnot_spec by lia | rewrite testbit_ToInt32 by lia ].

Ltac round_bits :=
  apply Z.bits_inj'; intros n Hn;
  unfold Rfc.F, Rfc.G, Rfc.H, Rfc.I, JS.xor, JS.and, JS.or, JS.not;
  destruct (Z.ltb_spec n 32) as [E | E];
  [ push_testbit;
    replace (n <? 32) with true by (symmetry; apply Z.ltb_lt; exact E);
    repeat match goal with
      | |- context [Z.testbit ?x n] => destruct (Z.testbit x n)
      end; reflexivity
  | rewrite testbit_ToUint32 by lia;
    replace (n <? 32) with false by (symmetry; apply Z.ltb_ge; exact E);
    push_testbit;
    replace (n <? 32) with false by (symmetry; apply Z.ltb_ge; exact E);
    reflexivity ].

(** The operands the program gives to the round expressions are not
    normalised; the bit operators read their low 32 bits. *)
Lemma round1_F (b c d : Z) :
  JS.ToUint32 ((c .^ d) .& b .^ d)
  = Rfc.F (JS.ToUint32 b) (JS.ToUint32 c) (JS.ToUint32 d).
Proof. round_bits. Qed.

Lemma round2_G (b c d : Z) :
  JS.ToUint32 ((b .^ c) .& d .^ c)
  = Rfc.G (JS.ToUint32 b) (JS.ToUint32 c) (JS.ToUint32 d).
Proof. round_bits. Qed.

Lemma round3_H (b c d : Z) :
  JS.ToUint32 (b .^ c .^ d)
  = Rfc.H (JS.ToUint32 b) (JS.ToUint32 c) (JS.ToUint32 d).
Proof. round_bits. Qed.

Lemma round4_I (b c d : Z) :
  JS.ToUint32 (c .^ (b .| (.~ d)))
  = Rfc.I (JS.ToUint32 b) (JS.ToUint32 c) (JS.ToUint32 d).
Proof. round_bits. Qed.

End RoundFunctions.

(* ================================================================== *)
(** * Facts on typed arrays *)

Section Arrays.

Lemma len_nonneg (a : Uint8Array) : 0 <= len a.
Proof. unfold len. lia. Qed.

Lemma len_app (a b : Uint8Array) : len (a ++ b) = len a + len b.
Proof. unfold len. rewrite length_app. lia. Qed.

Lemma len_firstn (n : Z) (a : Uint8Array) :
  0 <= n <= len a -> len (firstn (Z.to_nat n) a) = n.
Proof. unfold len. intros H. rewrite length_firstn. lia. Qed.

Lemma len_skipn (n : Z) (a : Uint8Array) :
  0 <= n <= len a -> len (skipn (Z.to_nat n) a) = len a - n.
Proof. unfold len. intros H. rewrite length_skipn. lia. Qed.

Lemma len_fill (a : Uint8Array) (v : Z) : len (fill a v) = len a.
Proof. unfold len, fill. rewrite repeat_length. reflexivity. Qed.

Lemma len_put (a : Uint8Array) (i v : Z) : len (put a i v) = len a.
Proof.
  unfold put.
  destruct ((0 <=? i) && (i <? len a)) eqn:E; [| reflexivity].
  apply andb_true_iff in E. destruct E as [E1 E2].
  apply Z.leb_le in E1. apply Z.ltb_lt in E2.
  unfold len in *. rewrite length_app. cbn [List.length].
  rewrite length_firstn, length_skipn. lia.
Qed.

Lemma clamp_index_in (a : Uint8Array) (k : Z) :
  0 <= k <= len a -> clamp_index a k = k.
Proof.
  intros H. unfold clamp_index.
  destruct (Z.ltb_spec k 0); lia.
Qed.

Lemma slice_firstn_skipn (a : Uint8Array) (i j : Z) :
  0 <= i <= j -> j <= len a ->
  slice a i j = firstn (Z.to_nat (j - i)) (skipn (Z.to_nat i) a).
Proof.
  intros Hij Hj. unfold slice.
  rewrite !clamp_index_in by lia.
  rewrite Z.max_l by lia. reflexivity.
Qed.

Lemma slice_from_skipn (a : Uint8Array) (i : Z) :
  0 <= i <= len a -> slice_from a i = skipn (Z.to_nat i) a.
Proof.
  intros Hi. unfold slice_from.
  rewrite slice_firstn_skipn by lia.
  apply firstn_all2. rewrite length_skipn. unfold len in *. lia.
Qed.

Lemma set_ok (target source : Uint8Array) (offset : Z) (calls : nat) :
  0 <= offset -> offset + len source <= len target ->
  set target source offset calls
  = Ok (firstn (Z.to_nat offset) target ++ source
          ++ skipn (Z.to_nat (offset + len source)) target, calls).
Proof.
  intros H0 H1. unfold set.
  destruct (Z.ltb_spec offset 0); [lia |].
  destruct (Z.ltb_spec (len target) (len source + offset)); [lia |].
  reflexivity.
Qed.

Lemma firstn_app_exact {A : Type} (l1 l2 : list A) (n : nat) :
  n = List.length l1 -> firstn n (l1 ++ l2) = l1.
Proof.
  intros ->. rewrite firstn_app, Nat.sub_diag, firstn_all.
  cbn. apply app_nil_r.
Qed.

Lemma new_Uint8Array_ok (n : Z) (calls : nat) :
  0 <= n -> new_Uint8Array n calls = Ok (repeat x00 (Z.to_nat n), calls).
Proof.
  intros Hn. unfold new_Uint8Array.
  destruct (Z.ltb_spec n 0); [lia | reflexivity].
Qed.

End Arrays.

(* ================================================================== *)
(** * The stream of bytes *)

Section Absorb.

Lemma absorb_app (acc : State * list byte) (l1 l2 : list byte) :
  absorb acc (l1 ++ l2) = absorb (absorb acc l1) l2.
Proof. unfold absorb. apply fold_left_app. Qed.

(** Bytes that do not fill the buffer are appended to it. *)
Lemma absorb_short (l : list byte) :
  forall (state : State) (buf : list byte),
    (List.length buf + List.length l < 64)%nat ->
    absorb (state, buf) l = (state, buf ++ l).
Proof.
  induction l as [| b l IH]; intros state buf Hlen.
  - cbn. rewrite app_nil_r. reflexivity.
  - cbn [List.length] in Hlen.
    change (absorb (state, buf) (b :: l))
      with (absorb (absorb_byte (state, buf) b) l).
    unfold absorb_byte.
    destruct (Nat.eqb_spec (List.length (buf ++ [b])) 64) as [E | E].
    + rewrite length_app in E. cbn in E. lia.
    + rewrite IH.
      * rewrite <- app_assoc. reflexivity.
      * rewrite length_app. cbn. lia.
Qed.

(** Bytes that fill the buffer exactly are compressed with it. *)
Lemma absorb_fill (l : list byte) (state : State) (buf : list byte) :
  (List.length buf < 64)%nat ->
  (List.length buf + List.length l = 64)%nat ->
  absorb (state, buf) l = (hash state (buf ++ l), []).
Proof.
  intros Hbuf Hlen.
  destruct (exists_last (l := l)) as [l' [b ->]].
  { intros ->. cbn in Hlen. lia. }
  rewrite length_app in Hlen. cbn in Hlen.
  rewrite absorb_app, absorb_short by lia.
  cbn. rewrite <- app_assoc.
  destruct (Nat.eqb_spec (List.length (buf ++ l' ++ [b])) 64) as [E | E].
  - reflexivity.
  - rewrite !length_app in E. cbn in E. lia.
Qed.

End Absorb.

(* ================================================================== *)
(** * What [update] computes *)

Section Update.

(** The loop consumes the whole blocks that start at [i]; it stops at a
    [j] less than a block from the end. *)
Lemma update_loop_spec (fuel : nat) :
  forall (state : State) (msg : Uint8Array) (i : Z) (calls : nat),
    0 <= i <= len msg ->
    len msg - i < 64 * (Z.of_nat fuel + 1) ->
    exists state' k calls',
      update_loop fuel state msg i calls = Ok ((state', i + 64 * k), calls')
      /\ 0 <= k
      /\ i + 64 * k <= len msg < i + 64 * k + 64
      /\ absorb (state, []) (skipn (Z.to_nat i) msg)
         = (state', skipn (Z.to_nat (i + 64 * k)) msg).
Proof.
  induction fuel as [| fuel IH]; intros state msg i calls Hi Hfuel.
  - cbn [update_loop]. unfold BLOCK_SIZE.
    destruct (Z.leb_spec (i + 64) (len msg)) as [E | E]; [lia |].
    exists state, 0, calls. rewrite Z.mul_0_r, Z.add_0_r.
    repeat split; try lia.
    apply absorb_short. rewrite length_skipn. unfold len in *. cbn. lia.
  - cbn [update_loop]. unfold BLOCK_SIZE.
    destruct (Z.leb_spec (i + 64) (len msg)) as [E | E].
    + unfold bind, call_hash.
      destruct (IH (hash state (slice msg i (i + 64))) msg (i + 64) (S calls))
        as (state' & k & calls' & Hrun & Hk & Hj & Habs); [lia | lia |].
      exists state', (k + 1), calls'.
      replace (i + 64 * (k + 1)) with (i + 64 + 64 * k) by lia.
      repeat split; try lia.
      * exact Hrun.
      * rewrite <- (firstn_skipn 64 (skipn (Z.to_nat i) msg)).
        rewrite absorb_app.
        rewrite (absorb_fill _ state []).
        -- rewrite skipn_skipn.
           replace (64 + Z.to_nat i)%nat with (Z.to_nat (i + 64)) by lia.
           rewrite slice_firstn_skipn in Habs by lia.
           replace (Z.to_nat (i + 64 - i)) with 64%nat in Habs by lia.
           exact Habs.
        -- cbn. lia.
        -- rewrite length_firstn, length_skipn. unfold len in *. cbn [List.length]. lia.
    + exists state, 0, calls. rewrite Z.mul_0_r, Z.add_0_r.
      repeat split; try lia.
      apply absorb_short. rewrite length_skipn. unfold len in *. cbn. lia.
Qed.

(** [update] on a context whose buffer has 64 bytes and whose [pos] is in
    range: it returns a context of the same kind, having absorbed [msg]
    after the [pos] bytes that were buffered. *)
Lemma update_spec (state : State) (block : Uint8Array) (pos n0 n1 : Z)
    (msg : Uint8Array) (calls : nat) :
  len block = 64 -> 0 <= pos < 64 ->
  exists state' block' pos' calls',
    update state block pos n0 n1 msg calls
    = Ok ((state', block', pos',
           fst (addLength n0 n1 (len msg)), snd (addLength n0 n1 (len msg))),
          calls')
    /\ len block' = 64
    /\ 0 <= pos' < 64
    /\ pos' = (pos + len msg) mod 64
    /\ absorb (state, firstn (Z.to_nat pos) block) msg
       = (state', firstn (Z.to_nat pos') block').
Proof.
  intros Hblock Hpos.
  pose proof (len_nonneg msg) as Hmsg.
  unfold update, BLOCK_SIZE.
  destruct (Z.ltb_spec (len msg) (64 - pos)) as [Hshort | Hlong].
  - (* the chunk fits in the free space *)
    unfold bind. rewrite set_ok by lia. unfold ret.
    destruct (addLength n0 n1 (len msg)) as [n0' n1'].
    eexists state, _, (pos + len msg), calls.
    split; [reflexivity |].
    split.
    { rewrite !len_app, len_firstn, len_skipn by lia. lia. }
    split; [lia |].
    split.
    { rewrite Z.mod_small by lia. reflexivity. }
    rewrite absorb_short.
    + f_equal. rewrite app_assoc. symmetry. apply firstn_app_exact.
      rewrite length_app, length_firstn. unfold len in *. lia.
    + rewrite length_firstn. unfold len in *. lia.
  - (* the chunk completes the buffered block *)
    unfold bind.
    rewrite slice_firstn_skipn by lia.
    rewrite Z.sub_0_r. cbn [skipn Z.to_nat].
    change (skipn 0 msg) with msg.
    rewrite set_ok by (rewrite ?len_firstn; lia).
    unfold call_hash.
    rewrite len_firstn by lia.
    replace (pos + (64 - pos)) with 64 by lia.
    rewrite (skipn_all2 (n := Z.to_nat 64) block) by (unfold len in *; lia).
    rewrite app_nil_r.
    set (block1 := firstn (Z.to_nat pos) block ++ firstn (Z.to_nat (64 - pos)) msg).
    assert (Hblock1 : len block1 = 64).
    { unfold block1. rewrite len_app, !len_firstn by lia. lia. }
    destruct (update_loop_spec (List.length msg) (hash state block1) msg
                (64 - pos) (S calls))
      as (state' & k & calls' & Hrun & Hk & Hj & Habs).
    { lia. }
    { unfold len in *. lia. }
    rewrite Hrun.
    rewrite slice_from_skipn by lia.
    rewrite set_ok by (rewrite ?len_skipn, ?len_fill by lia; lia).
    unfold ret.
    destruct (addLength n0 n1 (len msg)) as [n0' n1'].
    eexists state', _, (len msg - (64 - pos + 64 * k)), calls'.
    split; [reflexivity |].
    split.
    { cbn [firstn Z.to_nat app].
      rewrite len_app, !len_skipn, len_fill; rewrite ?len_skipn, ?len_fill; lia. }
    split; [lia |].
    split.
    { apply (Z.mod_unique _ _ (k + 1)); lia. }
    rewrite <- (firstn_skipn (Z.to_nat (64 - pos)) msg) at 1.
    rewrite absorb_app.
    rewrite absorb_fill.
    + fold block1. rewrite Habs. f_equal.
      cbn [firstn Z.to_nat app]. symmetry. apply firstn_app_exact.
      rewrite length_skipn. unfold len in *. lia.
    + rewrite length_firstn. unfold len in *. lia.
    + rewrite !length_firstn. unfold len in *. lia.
Qed.

End Update.

(* ================================================================== *)
(** * What the finalization computes *)

Section Finalization.

Lemma md5_digest_ok (state : State) (calls : nat) :
  md5_digest state calls = Ok (digest_bytes state, calls).
Proof.
  destruct state as [[[s0 s1] s2] s3]. reflexivity.
Qed.

Lemma len_digest_bytes (state : State) : len (digest_bytes state) = 16.
Proof.
  destruct state as [[[s0 s1] s2] s3]. reflexivity.
Qed.

Lemma md5_pad_ok (pos n0 n1 : Z) (calls : nat) :
  pos <= 128 ->
  md5_pad pos n0 n1 calls = Ok (padding pos n0 n1, calls).
Proof.
  intros Hpos. unfold padding, md5_pad, bind.
  fold (padLen_of pos).
  assert (Hlen : 0 <= padLen_of pos).
  { unfold padLen_of, BLOCK_SIZE. destruct (Z.ltb_spec (64 - pos) 9); lia. }
  rewrite !new_Uint8Array_ok by exact Hlen.
  reflexivity.
Qed.

Lemma len_padding (pos n0 n1 : Z) :
  pos <= 128 -> len (fst (fst (padding pos n0 n1))) = padLen_of pos.
Proof.
  intros Hpos. unfold padding, md5_pad, bind.
  fold (padLen_of pos).
  assert (Hlen : 0 <= padLen_of pos).
  { unfold padLen_of, BLOCK_SIZE. destruct (Z.ltb_spec (64 - pos) 9); lia. }
  rewrite new_Uint8Array_ok by exact Hlen.
  cbv zeta. unfold ret. cbn [fst].
  rewrite !len_put. unfold len. rewrite repeat_length. lia.
Qed.

(** The finalization compresses the padding after the buffered bytes and
    writes the resulting state out. *)
Lemma md5_final_spec (state : State) (block : Uint8Array) (pos n0 n1 : Z)
    (calls : nat) :
  len block = 64 -> 0 <= pos < 64 ->
  exists calls',
    md5_final state block pos n0 n1 calls
    = Ok (digest_bytes
            (fst (absorb (state, firstn (Z.to_nat pos) block)
                    (fst (fst (padding pos n0 n1))))),
          calls').
Proof.
  intros Hblock Hpos. unfold md5_final, bind.
  rewrite md5_pad_ok by lia.
  destruct (padding pos n0 n1) as [[pad n0s] n1s]. cbn [fst].
  destruct (update_spec state block pos n0s n1s pad calls Hblock Hpos)
    as (state' & block' & pos' & calls' & Hrun & _ & _ & _ & Habs).
  rewrite Hrun. rewrite md5_digest_ok.
  exists calls'. rewrite Habs. reflexivity.
Qed.

End Finalization.

(* ================================================================== *)
(** * Feeding chunks *)

Section Feed.

(** The counter words hold the number of bytes, as long as a call adds at
    most one carry. *)
Lemma addLength_spec (n0 n1 length : Z) :
  0 <= n0 < 2 ^ 32 -> 0 <= length -> n0 + length < 2 ^ 33 ->
  snd (addLength n0 n1 length) * 2 ^ 32 + fst (addLength n0 n1 length)
  = n1 * 2 ^ 32 + n0 + length
  /\ 0 <= fst (addLength n0 n1 length) < 2 ^ 32
  /\ fst (addLength n0 n1 length) <= n0 + length.
Proof.
  intros Hn0 Hlength Hsum. unfold addLength. cbn [fst snd].
  rewrite shru_0.
  destruct (Z.gtb_spec (n0 + length) 0xffffffff) as [E | E].
  - assert (Hm : (n0 + length) mod 2 ^ 32 = n0 + length - 2 ^ 32).
    { symmetry. apply (Z.mod_unique _ _ 1); lia. }
    rewrite Hm. lia.
  - rewrite Z.mod_small by lia. lia.
Qed.

(** Beyond that, the high word depends on how the bytes arrive: a call
    adds one to it at most, so 2^33 bytes count as one carry in one call
    and as two carries in two calls of 2^32 bytes. *)
Lemma addLength_one_carry_per_call :
  addLength 0 0 (2 ^ 33) = (0, 1)
  /\ (let '(n0, n1) := addLength 0 0 (2 ^ 32) in addLength n0 n1 (2 ^ 32))
     = (0, 2).
Proof. split; reflexivity. Qed.

(** The chunks are absorbed as their concatenation is. *)
Lemma feed_spec (chunks : list Uint8Array) :
  forall (state : State) (block : Uint8Array) (pos n0 n1 : Z) (calls : nat),
    len block = 64 -> 0 <= pos < 64 ->
    exists state' block' pos' n0' n1' calls',
      feed (state, block, pos, n0, n1) chunks calls
      = Ok ((state', block', pos', n0', n1'), calls')
      /\ len block' = 64
      /\ 0 <= pos' < 64
      /\ pos' = (pos + len (List.concat chunks)) mod 64
      /\ absorb (state, firstn (Z.to_nat pos) block) (List.concat chunks)
         = (state', firstn (Z.to_nat pos') block')
      /\ (0 <= n0 < 2 ^ 32 -> n0 + len (List.concat chunks) < 2 ^ 33 ->
          n1' * 2 ^ 32 + n0' = n1 * 2 ^ 32 + n0 + len (List.concat chunks)
          /\ 0 <= n0' < 2 ^ 32).
Proof.
  induction chunks as [| msg rest IH]; intros state block pos n0 n1 calls
    Hblock Hpos.
  - exists state, block, pos, n0, n1, calls. cbn [feed List.concat].
    change (len []) with 0. rewrite Z.add_0_r.
    repeat split; try lia.
    symmetry. apply Z.mod_small. exact Hpos.
  - cbn [feed List.concat]. unfold bind.
    destruct (update_spec state block pos n0 n1 msg calls Hblock Hpos)
      as (state1 & block1 & pos1 & calls1 & Hrun & Hblock1 & Hpos1 & Hmod1
          & Habs1).
    rewrite Hrun.
    destruct (IH state1 block1 pos1 (fst (addLength n0 n1 (len msg)))
                (snd (addLength n0 n1 (len msg))) calls1 Hblock1 Hpos1)
      as (state' & block' & pos' & n0' & n1' & calls' & Hfeed & Hblock'
          & Hpos' & Hmod' & Habs' & Hcount).
    exists state', block', pos', n0', n1', calls'.
    pose proof (len_nonneg msg) as Hmsg.
    pose proof (len_nonneg (List.concat rest)) as Hrest.
    rewrite len_app.
    split; [exact Hfeed |].
    split; [exact Hblock' |].
    split; [exact Hpos' |].
    split.
    { rewrite Hmod', Hmod1.
      rewrite Z.add_mod_idemp_l by lia. f_equal. lia. }
    split.
    { rewrite absorb_app, Habs1. exact Habs'. }
    intros Hn0 Hsum.
    destruct (addLength_spec n0 n1 (len msg)) as (Hinv & Hrange & Hle);
      [lia | lia | lia |].
    destruct Hcount as [Hinv' Hrange']; [lia | lia |].
    split; [lia | exact Hrange'].
Qed.

End Feed.

(* ================================================================== *)
(** * [md5] in one pass *)

Section Stream.

Lemma md5_stream_correct (msg : Uint8Array) :
  eval (md5 msg) = Ok (md5_stream msg).
Proof.
  unfold eval, md5, md5_stream, bind, BLOCK_SIZE.
  rewrite new_Uint8Array_ok by lia.
  destruct (update_spec initial_state (repeat x00 (Z.to_nat 64)) 0 0 0 msg O)
    as (state' & block' & pos' & calls' & Hrun & Hblock' & Hpos' & Hmod
        & Habs); [reflexivity | lia |].
  rewrite Hrun.
  destruct (addLength 0 0 (len msg)) as [n0 n1]. cbn [fst snd].
  destruct (md5_final_spec state' block' pos' n0 n1 calls' Hblock' Hpos')
    as (calls'' & Hfinal).
  rewrite Hfinal. rewrite <- Habs.
  rewrite <- absorb_app.
  rewrite Z.add_0_l in Hmod. rewrite <- Hmod.
  destruct (padding pos' n0 n1) as [[pad n0s] n1s]. reflexivity.
Qed.

End Stream.

(* ================================================================== *)
(** * [md5] on machine integers *)

Section Fast.

Lemma assignment_sim (e : Z) (e' : int) (k : Z -> Z * Z * Z * Z)
    (k' : int -> int * int * int * int) :
  R e e' -> (forall x x', R x x' -> Rel4 (k x) (k' x')) ->
  Rel4 (assignment e k) (assignment e' k').
Proof. intros He Hk. unfold assignment. apply Hk. exact He. Qed.

Lemma ToUint32_lxor x y : JS.ToUint32 (x .^ y) = Z.lxor (JS.ToUint32 x) (JS.ToUint32 y).
Proof.
  apply Z.bits_inj'; intros n Hn. unfold JS.xor.
  rewrite Z.lxor_spec, !testbit_ToUint32, Z.lxor_spec by lia.
  destruct (Z.ltb_spec n 32); cbn [andb]; [| reflexivity].
  rewrite !testbit_ToInt32 by lia. reflexivity.
Qed.

Lemma ToUint32_land x y : JS.ToUint32 (x .& y) = Z.land (JS.ToUint32 x) (JS.ToUint32 y).
Proof.
  apply Z.bits_inj'; intros n Hn. unfold JS.and.
  rewrite Z.land_spec, !testbit_ToUint32, Z.land_spec by lia.
  destruct (Z.ltb_spec n 32); cbn [andb]; [| reflexivity].
  rewrite !testbit_ToInt32 by lia. reflexivity.
Qed.

Lemma ToUint32_lor x y : JS.ToUint32 (x .| y) = Z.lor (JS.ToUint32 x) (JS.ToUint32 y).
Proof.
  apply Z.bits_inj'; intros n Hn. unfold JS.or.
  rewrite Z.lor_spec, !testbit_ToUint32, Z.lor_spec by lia.
  destruct (Z.ltb_spec n 32); cbn [andb orb]; [| reflexivity].
  rewrite !testbit_ToInt32 by lia. reflexivity.
Qed.

Lemma ToUint32_lnot x : JS.ToUint32 (.~ x) = Z.lxor (JS.ToUint32 x) 0xffffffff.
Proof.
  apply Z.bits_inj'; intros n Hn. unfold JS.not.
  change 0xffffffff with (Z.ones 32).
  rewrite Z.lxor_spec, !testbit_ToUint32, Z.lnot_spec by lia.
  rewrite Z.testbit_ones_nonneg by lia.
  destruct (Z.ltb_spec n 32); cbn [andb].
  - rewrite testbit_ToInt32 by lia. destruct (Z.testbit x n); reflexivity.
  - reflexivity.
Qed.

Lemma to_Z_mask : Uint63.to_Z W32.mask = Z.ones 32.
Proof. reflexivity. Qed.

Lemma R_xor x y x' y' : R x x' -> R y y' -> R (x .^ y) (W32.xor x' y').
Proof.
  unfold R, W32.xor. intros Hx Hy.
  rewrite ToUint32_lxor, Uint63.lxor_spec', Hx, Hy. reflexivity.
Qed.

Lemma R_and x y x' y' : R x x' -> R y y' -> R (x .& y) (W32.and x' y').
Proof.
  unfold R, W32.and. intros Hx Hy.
  rewrite ToUint32_land, Uint63.land_spec', Hx, Hy. reflexivity.
Qed.

Lemma R_or x y x' y' : R x x' -> R y y' -> R (x .| y) (W32.or x' y').
Proof.
  unfold R, W32.or. intros Hx Hy.
  rewrite ToUint32_lor, Uint63.lor_spec', Hx, Hy. reflexivity.
Qed.

Lemma R_not x x' : R x x' -> R (.~ x) (W32.not x').
Proof.
  unfold R, W32.not. intros Hx.
  rewrite ToUint32_lnot, Uint63.lxor_spec', Hx. reflexivity.
Qed.

Lemma mod_wB_mod_32 (z : Z) : (z mod Uint63.wB) mod 2 ^ 32 = z mod 2 ^ 32.
Proof.
  apply Z.mod_mod_divide. exists (2 ^ 31). reflexivity.
Qed.

Lemma R_add x y x' y' : R x x' -> R y y' -> R (x + y) (W32.add x' y').
Proof.
  unfold R, W32.add. intros Hx Hy.
  rewrite Uint63.land_spec', to_Z_mask, Z.land_ones by lia.
  rewrite Uint63.add_spec, mod_wB_mod_32, <- Hx, <- Hy.
  rewrite !ToUint32_mod. rewrite <- Z.add_mod by lia. reflexivity.
Qed.

Lemma R_rol32 x x' n n' :
  R x x' -> 0 < n < 32 -> Uint63.to_Z n' = n -> R (rol32 x n) (W32.rol32 x' n').
Proof.
  unfold R, W32.rol32, W32.or, W32.shl, rol32. intros Hx Hn Hn'.
  rewrite ToUint32_lor, Uint63.lor_spec'. f_equal.
  - rewrite Uint63.land_spec', to_Z_mask, Z.land_ones by lia.
    rewrite Uint63.lsl_spec, mod_wB_mod_32, Hn', <- Hx.
    unfold JS.shl. rewrite ToUint32_mod, ToInt32_mod.
    replace (Z.land (JS.ToUint32 n) 0x1f) with n.
    + rewrite Z.shiftl_mul_pow2 by lia.
      rewrite <- Z.mul_mod_idemp_l by lia. rewrite ToInt32_mod.
      rewrite ToUint32_mod. reflexivity.
    + rewrite ToUint32_word by (unfold word; lia).
      change 0x1f with (Z.ones 5). rewrite Z.land_ones by lia.
      symmetry. apply Z.mod_small. change (2 ^ 5) with 32. lia.
  - rewrite Uint63.lsr_spec, Uint63.sub_spec, Hn', <- Hx.
    change (Uint63.to_Z 32) with 32.
    rewrite (Z.mod_small (32 - n)) by (change Uint63.wB with (2 ^ 63); lia).
    unfold JS.shru.
    replace (Z.land (JS.ToUint32 (32 - n)) 0x1f) with (32 - n).
    + rewrite Z.shiftr_div_pow2 by lia.
      apply ToUint32_word.
      pose proof (ToUint32_range x) as Hr. unfold word in *. split.
      * apply Z.div_pos; lia.
      * apply Z.div_lt_upper_bound; [lia |].
        assert (1 <= 2 ^ (32 - n)) by lia. nia.
    + rewrite ToUint32_word by (unfold word; lia).
      change 0x1f with (Z.ones 5). rewrite Z.land_ones by lia.
      symmetry. apply Z.mod_small. change (2 ^ 5) with 32. lia.
Qed.

Lemma byte_val_range (b : byte) : 0 <= byte_val b < 256.
Proof.
  unfold byte_val. pose proof (Byte.to_N_bounded b). lia.
Qed.

Lemma R_shl x x' n n' :
  R x x' -> 0 <= n < 32 -> Uint63.to_Z n' = n -> R (x .<< n) (W32.shl x' n').
Proof.
  unfold R, W32.shl. intros Hx Hn Hn'.
  rewrite Uint63.land_spec', to_Z_mask, Z.land_ones by lia.
  rewrite Uint63.lsl_spec, mod_wB_mod_32, Hn', <- Hx.
  unfold JS.shl. rewrite ToUint32_mod, ToInt32_mod.
  replace (Z.land (JS.ToUint32 n) 0x1f) with n.
  - rewrite Z.shiftl_mul_pow2 by lia.
    rewrite <- Z.mul_mod_idemp_l by lia. rewrite ToInt32_mod.
    rewrite ToUint32_mod. reflexivity.
  - rewrite ToUint32_word by (unfold word; lia).
    change 0x1f with (Z.ones 5). rewrite Z.land_ones by lia.
    symmetry. apply Z.mod_small. change (2 ^ 5) with 32. lia.
Qed.

Lemma R_get (block : list byte) (i : nat) (z : Z) :
  z = Z.of_nat i -> R (get block z) (W32.get block i).
Proof.
  intros ->. unfold R, get, W32.get, W32.of_byte.
  destruct (Z.ltb_spec (Z.of_nat i) 0); [lia |].
  rewrite Nat2Z.id, Uint63.of_Z_spec.
  assert (Hnth : match nth_error block i with
                 | Some b => byte_val b
                 | None => 0
                 end = byte_val (nth i block x00)).
  { destruct (nth_error block i) as [b |] eqn:E.
    - rewrite (nth_error_nth _ _ _ E). reflexivity.
    - apply nth_error_None in E. rewrite nth_overflow by exact E.
      reflexivity. }
  rewrite Hnth.
  pose proof (byte_val_range (nth i block x00)) as Hb.
  rewrite ToUint32_word by (unfold word; lia).
  symmetry. apply Z.mod_small. change Uint63.wB with (2 ^ 63). lia.
Qed.

Lemma R_blk (block : list byte) (i : nat) (z : Z) :
  z = Z.of_nat i -> R (blk block z) (W32.blk block i).
Proof.
  intros ->. unfold blk, W32.blk.
  repeat first
    [ apply R_or | apply R_shl | apply R_get | lia | reflexivity ].
Qed.

(** A step of the chain: the values on both sides are related. *)
Ltac solve_R :=
  repeat first
    [ assumption
    | simple apply R_add | simple apply R_xor | simple apply R_and
    | simple apply R_or | simple apply R_not | simple apply R_rol32
    | simple apply R_blk | reflexivity | lia ].

Lemma rounds_sim (a b c d : Z) (a' b' c' d' : int) (block : list byte) :
  R a a' -> R b b' -> R c c' -> R d d' ->
  Rel4 (hash_rounds (a, b, c, d) block) (rounds32 (a', b', c', d') block).
Proof.
  intros Ha Hb Hc Hd.
  cbv beta iota zeta delta [hash_rounds rounds32].
  do 64 (apply assignment_sim; [solve_R | intros ? ? ?; cbv beta]).
  unfold Rel4. auto.
Qed.

Lemma R_canon (z : Z) (i : int) : R z i -> R (Uint63.to_Z i) i.
Proof.
  unfold R. intros H. rewrite <- H at 2.
  rewrite <- H. rewrite !ToUint32_mod. apply Z.mod_mod. lia.
Qed.

(** [hash32] is [hash] on states of 32-bit words. *)
Lemma hash_sim (s' : State32) (block : list byte) :
  Canon s' ->
  hash (state_of32 s') block = state_of32 (hash32 s' block)
  /\ Canon (hash32 s' block).
Proof.
  destruct s' as [[[a' b'] c'] d'].
  unfold Canon, state_of32 at 1, Rel4. intros (Ha & Hb & Hc & Hd).
  pose proof (rounds_sim _ _ _ _ _ _ _ _ block Ha Hb Hc Hd) as Hr.
  unfold hash, hash32, state_of32 at 1.
  destruct (hash_rounds _ block) as [[[a b] c] d].
  destruct (rounds32 _ block) as [[[a2 b2] c2] d2].
  unfold Rel4 in Hr. destruct Hr as (Ra & Rb & Rc & Rd).
  pose proof (R_add _ _ _ _ Ha Ra) as Sa.
  pose proof (R_add _ _ _ _ Hb Rb) as Sb.
  pose proof (R_add _ _ _ _ Hc Rc) as Sc.
  pose proof (R_add _ _ _ _ Hd Rd) as Sd.
  split.
  - unfold state_of32. rewrite !shru_0, <- !ToUint32_mod.
    unfold R in Sa, Sb, Sc, Sd. rewrite Sa, Sb, Sc, Sd. reflexivity.
  - unfold Canon, state_of32, Rel4.
    repeat split; eapply R_canon; eassumption.
Qed.

Lemma skipn_63_nil (l : list byte) :
  skipn 63 l = [] -> (List.length l < 64)%nat.
Proof.
  intros H. apply (f_equal (@List.length byte)) in H.
  rewrite length_skipn in H. cbn in H. lia.
Qed.

Lemma skipn_63_cons (l : list byte) (x : byte) (rest : list byte) :
  skipn 63 l = x :: rest ->
  rest = skipn 64 l /\ (64 <= List.length l)%nat.
Proof.
  intros H. split.
  - change 64%nat with (1 + 63)%nat. rewrite <- skipn_skipn, H. reflexivity.
  - apply (f_equal (@List.length byte)) in H.
    rewrite length_skipn in H. cbn [List.length] in H. lia.
Qed.

(** [absorb32] computes the state that [absorb] reaches. *)
Lemma absorb32_spec (fuel : nat) :
  forall (s' : State32) (l : list byte),
    Canon s' -> (List.length l < 64 * (fuel + 1))%nat ->
    fst (absorb (state_of32 s', []) l) = state_of32 (absorb32 fuel s' l).
Proof.
  induction fuel as [| fuel IH]; intros s' l Hs Hlen.
  - cbn [absorb32]. rewrite absorb_short by (cbn [List.length]; lia).
    reflexivity.
  - cbn [absorb32].
    destruct (skipn 63 l) as [| x rest] eqn:E.
    + apply skipn_63_nil in E.
      rewrite absorb_short by (cbn [List.length]; lia). reflexivity.
    + apply skipn_63_cons in E. destruct E as [-> Hl].
      rewrite <- (firstn_skipn 64 l) at 1.
      rewrite absorb_app, absorb_fill.
      * cbn [app]. destruct (hash_sim s' (firstn 64 l) Hs) as [-> Hc].
        apply IH; [exact Hc |]. rewrite length_skipn. lia.
      * cbn [List.length]. lia.
      * rewrite length_firstn. cbn [List.length]. lia.
Qed.

Lemma md5_fast_correct (msg : Uint8Array) : md5_stream msg = md5_fast msg.
Proof.
  unfold md5_stream, md5_fast.
  destruct (addLength 0 0 (len msg)) as [n0 n1].
  destruct (padding (len msg mod 64) n0 n1) as [[pad n0s] n1s].
  f_equal. apply (absorb32_spec _ initial32).
  - unfold Canon, Rel4, state_of32, initial32, R. repeat split.
  - lia.
Qed.

End Fast.

(* ================================================================== *)
(** * The length bytes of the padding *)

Section LengthBytes.

Lemma byte_val_ToUint8 (v : Z) : byte_val (ToUint8 v) = v mod 256.
Proof.
  unfold byte_val, ToUint8.
  change 0xff with (Z.ones 8). rewrite Z.land_ones by lia.
  change (2 ^ 8) with 256.
  pose proof (Z.mod_pos_bound v 256 ltac:(lia)) as Hv.
  destruct (Byte.of_N (Z.to_N (v mod 256))) as [b |] eqn:E.
  - apply Byte.to_of_N in E. rewrite E. lia.
  - apply Byte.of_N_None_iff in E. lia.
Qed.

Lemma mod_256_ToInt32 (x : Z) : JS.ToInt32 x mod 256 = x mod 256.
Proof.
  assert (Hdiv : (256 | 2 ^ 32)) by (exists (2 ^ 24); reflexivity).
  rewrite <- (Z.mod_mod_divide (JS.ToInt32 x) (2 ^ 32) 256 Hdiv).
  rewrite ToInt32_mod. apply Z.mod_mod_divide. exact Hdiv.
Qed.

(** [x & 0xff], stored in a byte. *)
Lemma byte_and_ff (x : Z) :
  byte_val (ToUint8 (x .& 0xff)) = JS.ToUint32 x mod 256.
Proof.
  rewrite byte_val_ToUint8. unfold JS.and.
  change (JS.ToInt32 0xff) with (Z.ones 8).
  rewrite Z.land_ones by lia. change (2 ^ 8) with 256.
  rewrite Z.mod_mod by lia. rewrite mod_256_ToInt32.
  rewrite ToUint32_mod. symmetry. apply Z.mod_mod_divide.
  exists (2 ^ 24). reflexivity.
Qed.

(** [(x >>> k) & 0xff], stored in a byte, for [k] = 8, 16, 24. *)
Lemma byte_shru_and_ff (x k : Z) :
  k = 8 \/ k = 16 \/ k = 24 ->
  byte_val (ToUint8 ((x .>>> k) .& 0xff)) = (JS.ToUint32 x / 2 ^ k) mod 256.
Proof.
  intros Hk. rewrite byte_and_ff. unfold JS.shru.
  replace (Z.land (JS.ToUint32 k) 0x1f) with k
    by (destruct Hk as [-> | [-> | ->]]; reflexivity).
  rewrite Z.shiftr_div_pow2 by lia.
  rewrite ToUint32_word; [reflexivity |].
  pose proof (ToUint32_range x) as Hx. unfold word in *.
  split.
  - apply Z.div_pos; lia.
  - apply Z.div_lt_upper_bound; [lia |].
    assert (1 <= 2 ^ k) by lia. nia.
Qed.

(** A 32-bit word is the sum of its four bytes. *)
Lemma word_bytes (u : Z) :
  word u ->
  u mod 256
  + 256 * ((u / 2 ^ 8) mod 256
           + 256 * ((u / 2 ^ 16) mod 256 + 256 * ((u / 2 ^ 24) mod 256)))
  = u.
Proof.
  unfold word. intros Hu.
  change (2 ^ 8) with 256. change (2 ^ 16) with (256 * 256).
  change (2 ^ 24) with (256 * 256 * 256).
  rewrite <- !Z.div_div by lia.
  pose proof (Z.div_mod u 256 ltac:(lia)) as H0.
  pose proof (Z.div_mod (u / 256) 256 ltac:(lia)) as H1.
  pose proof (Z.div_mod (u / 256 / 256) 256 ltac:(lia)) as H2.
  assert (H3 : (u / 256 / 256 / 256) mod 256 = u / 256 / 256 / 256).
  { apply Z.mod_small. split.
    - repeat apply Z.div_pos; lia.
    - repeat (apply Z.div_lt_upper_bound; [lia |]). lia. }
  lia.
Qed.

Lemma put_app_l (h t : list byte) (i v : Z) :
  0 <= i < len h -> put (h ++ t) i v = put h i v ++ t.
Proof.
  intros Hi. unfold put. rewrite len_app.
  pose proof (len_nonneg t) as Ht.
  destruct (Z.leb_spec 0 i); [| lia].
  destruct (Z.ltb_spec i (len h + len t)); [| lia].
  destruct (Z.ltb_spec i (len h)); [| lia].
  cbn [andb]. unfold len in *.
  rewrite firstn_app, skipn_app.
  replace (Z.to_nat i - List.length h)%nat with 0%nat by lia.
  replace (Z.to_nat (i + 1) - List.length h)%nat with 0%nat by lia.
  cbn [firstn skipn]. rewrite app_nil_r, <- app_assoc. reflexivity.
Qed.

Lemma put_app_r (h t : list byte) (i j v : Z) :
  i = len h + j -> 0 <= j -> put (h ++ t) i v = h ++ put t j v.
Proof.
  intros -> Hj. unfold put. rewrite len_app.
  pose proof (len_nonneg h) as Hh.
  destruct (Z.leb_spec 0 (len h + j)); [| lia].
  destruct (Z.leb_spec 0 j); [| lia].
  cbn [andb].
  destruct (Z.ltb_spec (len h + j) (len h + len t));
    destruct (Z.ltb_spec j (len t)); try lia; [| reflexivity].
  unfold len in *.
  rewrite firstn_app, skipn_app.
  rewrite firstn_all2 by lia. rewrite skipn_all2 by lia.
  replace (Z.to_nat (Z.of_nat (List.length h) + j) - List.length h)%nat
    with (Z.to_nat j) by lia.
  replace (Z.to_nat (Z.of_nat (List.length h) + j + 1) - List.length h)%nat
    with (Z.to_nat (j + 1)) by lia.
  cbn [app]. rewrite <- app_assoc. reflexivity.
Qed.

(** The eight stores at the end of the padding buffer. *)
Lemma put_last8 (h : list byte) (p v0 v1 v2 v3 v4 v5 v6 v7 : Z) :
  len h = p - 8 ->
  put (put (put (put (put (put (put (put (h ++ repeat x00 8)
    (p - 8) v0) (p - 7) v1) (p - 6) v2) (p - 5) v3)
    (p - 4) v4) (p - 3) v5) (p - 2) v6) (p - 1) v7
  = h ++ [ToUint8 v0; ToUint8 v1; ToUint8 v2; ToUint8 v3;
          ToUint8 v4; ToUint8 v5; ToUint8 v6; ToUint8 v7].
Proof.
  intros Hh. pose proof (len_nonneg h) as Hnonneg.
  rewrite (put_app_r h _ (p - 8) 0) by lia.
  rewrite (put_app_r h _ (p - 7) 1) by lia.
  rewrite (put_app_r h _ (p - 6) 2) by lia.
  rewrite (put_app_r h _ (p - 5) 3) by lia.
  rewrite (put_app_r h _ (p - 4) 4) by lia.
  rewrite (put_app_r h _ (p - 3) 5) by lia.
  rewrite (put_app_r h _ (p - 2) 6) by lia.
  rewrite (put_app_r h _ (p - 1) 7) by lia.
  reflexivity.
Qed.

(** The padding buffer: the counter words in bits, their bytes at its
    end, and its length. *)
Lemma padding_spec (pos n0 n1 : Z) :
  0 <= pos < 64 ->
  exists head : list byte,
    padding pos n0 n1
    = (head ++ counter_bytes (n0 .<< 3)
            ++ counter_bytes ((n1 .<< 3) .| (n0 .>>> 29)),
       n0 .<< 3, (n1 .<< 3) .| (n0 .>>> 29))
    /\ len head = padLen_of pos - 8.
Proof.
  intros Hpos. unfold padding, md5_pad, bind.
  fold (padLen_of pos).
  assert (Hlen : 9 <= padLen_of pos).
  { unfold padLen_of, BLOCK_SIZE. destruct (Z.ltb_spec (64 - pos) 9); lia. }
  rewrite new_Uint8Array_ok by lia.
  cbv zeta. unfold ret. cbv beta iota.
  rewrite !len_put.
  assert (Hrep : len (repeat x00 (Z.to_nat (padLen_of pos))) = padLen_of pos).
  { unfold len. rewrite repeat_length. lia. }
  rewrite Hrep.
  replace (Z.to_nat (padLen_of pos))
    with (Z.to_nat (padLen_of pos - 8) + 8)%nat by lia.
  rewrite repeat_app.
  assert (Hhead : len (repeat x00 (Z.to_nat (padLen_of pos - 8)))
                  = padLen_of pos - 8).
  { unfold len. rewrite repeat_length. lia. }
  rewrite put_app_l by lia.
  exists (put (repeat x00 (Z.to_nat (padLen_of pos - 8))) 0 0x80).
  split.
  - rewrite put_last8 by (rewrite len_put; exact Hhead). reflexivity.
  - rewrite len_put. exact Hhead.
Qed.

Lemma last_bytes_app (h t : list byte) :
  last_bytes (List.length t) (h ++ t) = t.
Proof.
  unfold last_bytes. rewrite length_app.
  replace (List.length h + List.length t - List.length t)%nat
    with (List.length h) by lia.
  rewrite skipn_app, skipn_all, Nat.sub_diag. reflexivity.
Qed.

(** The low word in bits, and the high word when the byte count fits in
    32 bits. *)
Lemma ToUint32_shl3 (n0 : Z) : JS.ToUint32 (n0 .<< 3) = (8 * n0) mod 2 ^ 32.
Proof.
  unfold JS.shl. rewrite ToUint32_mod, ToInt32_mod.
  change (Z.land (JS.ToUint32 3) 0x1f) with 3.
  rewrite Z.shiftl_mul_pow2 by lia. change (2 ^ 3) with 8.
  rewrite <- Z.mul_mod_idemp_l by lia. rewrite ToInt32_mod.
  rewrite Z.mul_mod_idemp_l by lia. f_equal. lia.
Qed.

Lemma high_word (n0 : Z) :
  word n0 -> (0 .<< 3) .| (n0 .>>> 29) = n0 / 2 ^ 29.
Proof.
  unfold word. intros Hn0.
  change (0 .<< 3) with 0. unfold JS.or, JS.shru.
  change (JS.ToInt32 0) with 0. rewrite Z.lor_0_l.
  change (Z.land (JS.ToUint32 29) 0x1f) with 29.
  rewrite ToUint32_word by exact Hn0.
  rewrite Z.shiftr_div_pow2 by lia.
  apply ToInt32_small.
  assert (0 <= n0 / 2 ^ 29 < 8).
  { split; [apply Z.div_pos; lia | apply Z.div_lt_upper_bound; lia]. }
  lia.
Qed.

Lemma le_decode_word (x : Z) : le_decode (counter_bytes x) = JS.ToUint32 x.
Proof.
  unfold counter_bytes. cbn [le_decode fold_right].
  rewrite byte_and_ff, !byte_shru_and_ff by auto.
  rewrite Z.mul_0_r, Z.add_0_r.
  apply word_bytes. apply ToUint32_range.
Qed.

Lemma le_decode_app (l1 l2 : list byte) :
  le_decode (l1 ++ l2)
  = le_decode l1 + 256 ^ Z.of_nat (List.length l1) * le_decode l2.
Proof.
  induction l1 as [| b l1 IH].
  - cbn [app List.length]. change (256 ^ Z.of_nat 0) with 1.
    change (le_decode []) with 0. lia.
  - cbn [app List.length]. rewrite Nat2Z.inj_succ, Z.pow_succ_r by lia.
    change (le_decode (b :: l1 ++ l2))
      with (byte_val b + 256 * le_decode (l1 ++ l2)).
    change (le_decode (b :: l1)) with (byte_val b + 256 * le_decode l1).
    rewrite IH. lia.
Qed.

End LengthBytes.

(* ================================================================== *)
(** * The rotation, and the words of a block *)

Section RotationAndWords.

Lemma shift_count (n : Z) : 0 <= n < 32 -> Z.land (JS.ToUint32 n) 0x1f = n.
Proof.
  intros Hn. rewrite ToUint32_word by (unfold word; lia).
  change 0x1f with (Z.ones 5). rewrite Z.land_ones by lia.
  apply Z.mod_small. change (2 ^ 5) with 32. lia.
Qed.

Lemma testbit_shl (x n i : Z) :
  0 <= n < 32 -> 0 <= i < 32 ->
  Z.testbit (x .<< n) i = (n <=? i) && Z.testbit x (i - n).
Proof.
  intros Hn Hi. unfold JS.shl.
  rewrite testbit_ToInt32, shift_count by lia.
  rewrite Z.shiftl_spec by lia.
  destruct (Z.leb_spec n i).
  - rewrite testbit_ToInt32 by lia. reflexivity.
  - apply Z.testbit_neg_r. lia.
Qed.

Lemma testbit_shru (x n i : Z) :
  0 <= n < 32 -> 0 <= i ->
  Z.testbit (x .>>> n) i = (i + n <? 32) && Z.testbit x (i + n).
Proof.
  intros Hn Hi. unfold JS.shru.
  rewrite shift_count by lia.
  rewrite Z.shiftr_spec by lia.
  apply testbit_ToUint32. lia.
Qed.

(** Bit [i] of a rotation: a bit of the shifted operand from [n] on, a
    bit of its top below. *)
Lemma rol32_bit (x n i : Z) :
  0 < n < 32 -> 0 <= i < 32 ->
  Z.testbit (rol32 x n) i
  = if n <=? i then Z.testbit x (i - n) else Z.testbit x (i + (32 - n)).
Proof.
  intros Hn Hi. unfold rol32, JS.or.
  rewrite Z.lor_spec, !testbit_ToInt32 by lia.
  rewrite testbit_shl, testbit_shru by lia.
  destruct (Z.leb_spec n i) as [E | E].
  - destruct (Z.ltb_spec (i + (32 - n)) 32); [lia |].
    cbn [andb]. apply orb_false_r.
  - destruct (Z.ltb_spec (i + (32 - n)) 32); [| lia]. reflexivity.
Qed.

Lemma get_range (a : Uint8Array) (i : Z) : 0 <= get a i < 256.
Proof.
  unfold get. destruct (i <? 0); [lia |].
  destruct (nth_error a (Z.to_nat i)) as [b |]; [apply byte_val_range | lia].
Qed.

Lemma lor_disjoint (a b n : Z) :
  0 <= n -> 0 <= a < 2 ^ n -> Z.lor a (b * 2 ^ n) = a + b * 2 ^ n.
Proof.
  intros Hn Ha.
  rewrite <- (Z.add_lor_land a (b * 2 ^ n)).
  assert (Hland : Z.land a (b * 2 ^ n) = 0).
  { apply Z.bits_inj'. intros i Hi.
    rewrite Z.land_spec, Z.bits_0, <- Z.shiftl_mul_pow2 by lia.
    destruct (Z.ltb_spec i n).
    - rewrite Z.shiftl_spec_low by lia. apply andb_false_r.
    - rewrite <- (Z.mod_small a (2 ^ n)) by lia.
      rewrite Z.mod_pow2_bits_high by lia. reflexivity. }
  rewrite Hland. lia.
Qed.

Lemma ToUint32_shl_byte (g n : Z) :
  0 <= g < 256 -> 0 <= n <= 24 -> JS.ToUint32 (g .<< n) = g * 2 ^ n.
Proof.
  intros Hg Hn. unfold JS.shl.
  rewrite ToUint32_mod, ToInt32_mod, shift_count by lia.
  rewrite Z.shiftl_mul_pow2 by lia.
  rewrite (ToInt32_small g) by lia.
  apply Z.mod_small.
  assert (2 ^ n <= 2 ^ 24) by (apply Z.pow_le_mono_r; lia).
  assert (0 < 2 ^ n) by lia. nia.
Qed.

(** The four bytes that [blk] reads, as one number. *)
Lemma ToUint32_blk (block : Uint8Array) (i : Z) :
  JS.ToUint32 (blk block i)
  = get block i
    + 256 * (get block (i + 1)
             + 256 * (get block (i + 2) + 256 * get block (i + 3))).
Proof.
  pose proof (get_range block i) as H0.
  pose proof (get_range block (i + 1)) as H1.
  pose proof (get_range block (i + 2)) as H2.
  pose proof (get_range block (i + 3)) as H3.
  unfold blk. rewrite !ToUint32_lor.
  rewrite !ToUint32_shl_byte by lia.
  rewrite (ToUint32_word (get block i)) by (unfold word; lia).
  rewrite (lor_disjoint _ _ 8) by lia.
  rewrite (lor_disjoint _ _ 16) by lia.
  rewrite (lor_disjoint _ _ 24) by lia.
  lia.
Qed.

Lemma get_skipn (a : Uint8Array) (i : nat) (k : Z) :
  0 <= k -> get (skipn i a) k = get a (Z.of_nat i + k).
Proof.
  intros Hk. unfold get.
  destruct (Z.ltb_spec k 0); [lia |].
  destruct (Z.ltb_spec (Z.of_nat i + k) 0); [lia |].
  replace (Z.to_nat (Z.of_nat i + k)) with (i + Z.to_nat k)%nat by lia.
  rewrite nth_error_skipn. reflexivity.
Qed.

Lemma le_decode_firstn_4 (l : list byte) :
  le_decode (firstn 4 l)
  = get l 0 + 256 * (get l 1 + 256 * (get l 2 + 256 * get l 3)).
Proof.
  destruct l as [| b0 [| b1 [| b2 [| b3 l]]]];
    cbv [get le_decode firstn fold_right Z.ltb Z.compare Z.to_nat Pos.to_nat
         Pos.iter_op Nat.add nth_error];
    lia.
Qed.

Lemma blk_le_decode (block : Uint8Array) (i : nat) :
  JS.ToUint32 (blk block (Z.of_nat i)) = le_decode (firstn 4 (skipn i block)).
Proof.
  rewrite ToUint32_blk, le_decode_firstn_4.
  rewrite !get_skipn by lia.
  rewrite Z.add_0_r. reflexivity.
Qed.

Lemma le_decode_word_le (v : Z) : le_decode (word_le v) = JS.ToUint32 v.
Proof.
  unfold word_le. cbn [le_decode fold_right].
  rewrite !byte_val_ToUint8.
  change 256 with (2 ^ 8) at 1 3 5 7.
  rewrite Z.mul_0_r, Z.add_0_r.
  change (2 ^ 8) with 256.
  apply word_bytes. apply ToUint32_range.
Qed.

End RotationAndWords.

(* ================================================================== *)
(** * The rounds in the words of the specification

    The 64 assignments of [hash] are followed one at a time next to the 64
    operations of [Rfc.rounds]: a value of the program and the word of the
    specification agree modulo 2^32 at each one. *)

Section RoundsSpec.

Lemma Low_add (x y x' y' : Z) :
  Low x x' -> Low y y' -> Low (x + y) (Rfc.add x' y').
Proof.
  unfold Low, Rfc.add. intros <- <-.
  rewrite !ToUint32_mod. apply Z.add_mod. lia.
Qed.

Lemma Low_add_const (x x' t : Z) :
  Low x x' -> Low (x + t) (Rfc.add x' t).
Proof.
  unfold Low, Rfc.add. intros <-.
  rewrite !ToUint32_mod. symmetry. apply Z.add_mod_idemp_l. lia.
Qed.

Lemma Low_rotl (x x' s : Z) :
  Low x x' -> 0 < s < 32 -> Low (rol32 x s) (Rfc.rotl x' s).
Proof.
  unfold Low, Rfc.rotl. intros <- Hs.
  apply Z.bits_inj'. intros i Hi.
  rewrite testbit_ToUint32, Z.lor_spec by lia.
  rewrite Z.testbit_mod_pow2, Z.shiftr_spec, Z.shiftl_spec by lia.
  destruct (Z.ltb_spec i 32) as [E | E]; cbn [andb].
  - rewrite rol32_bit by lia.
    rewrite (testbit_ToUint32 x (i + (32 - s))) by lia.
    destruct (Z.leb_spec s i) as [E1 | E1].
    + rewrite testbit_ToUint32 by lia.
      destruct (Z.ltb_spec (i - s) 32); [| lia].
      destruct (Z.ltb_spec (i + (32 - s)) 32); [lia |].
      cbn [andb]. rewrite orb_false_r. reflexivity.
    + rewrite (Z.testbit_neg_r _ (i - s)) by lia.
      destruct (Z.ltb_spec (i + (32 - s)) 32); [| lia].
      reflexivity.
  - rewrite testbit_ToUint32 by lia.
    destruct (Z.ltb_spec (i + (32 - s)) 32); [lia |]. reflexivity.
Qed.

Lemma Low_X (block : list byte) (k : nat) (z : Z) :
  z = Z.of_nat (4 * k) -> Low (blk block z) (Rfc.X block k).
Proof. intros ->. apply blk_le_decode. Qed.

Lemma Low_F (b c d b' c' d' : Z) :
  Low b b' -> Low c c' -> Low d d' -> Low ((c .^ d) .& b .^ d) (Rfc.F b' c' d').
Proof. unfold Low. intros <- <- <-. apply round1_F. Qed.

Lemma Low_G (b c d b' c' d' : Z) :
  Low b b' -> Low c c' -> Low d d' -> Low ((b .^ c) .& d .^ c) (Rfc.G b' c' d').
Proof. unfold Low. intros <- <- <-. apply round2_G. Qed.

Lemma Low_H (b c d b' c' d' : Z) :
  Low b b' -> Low c c' -> Low d d' -> Low (b .^ c .^ d) (Rfc.H b' c' d').
Proof. unfold Low. intros <- <- <-. apply round3_H. Qed.

Lemma Low_I (b c d b' c' d' : Z) :
  Low b b' -> Low c c' -> Low d d' -> Low (c .^ (b .| (.~ d))) (Rfc.I b' c' d').
Proof. unfold Low. intros <- <- <-. apply round4_I. Qed.

Lemma Low_operation (a b fv x t s a' b' fv' x' : Z) :
  Low a a' -> Low b b' -> Low fv fv' -> Low x x' -> 0 < s < 32 ->
  Low (b + rol32 (fv + a + x + t) s)
      (Rfc.add b' (Rfc.rotl (Rfc.add (Rfc.add (Rfc.add a' fv') x') t) s)).
Proof.
  intros Ha Hb Hf Hx Hs.
  apply Low_add; [exact Hb |].
  apply Low_rotl; [| exact Hs].
  apply Low_add_const. apply Low_add; [| exact Hx].
  rewrite (Z.add_comm fv a). apply Low_add; assumption.
Qed.

Lemma operation_sim (e : Z) (k : Z -> Z * Z * Z * Z) (X : nat -> Z)
    (f : Z -> Z -> Z -> Z) (i : nat) (s t : Z)
    (ops : list ((Z -> Z -> Z -> Z) * (nat * Z * Z))) (a' b' c' d' : Z) :
  Low e (Rfc.add b' (Rfc.rotl (Rfc.add (Rfc.add (Rfc.add a' (f b' c' d')) (X i)) t) s)) ->
  (forall x x', Low x x' ->
     Low4 (k x) (fold_left (Rfc.operation X) ops (d', x', b', c'))) ->
  Low4 (assignment e k)
       (fold_left (Rfc.operation X) ((f, (i, s, t)) :: ops) (a', b', c', d')).
Proof.
  intros He Hk. unfold assignment. cbn [fold_left Rfc.operation].
  apply Hk. exact He.
Qed.

Ltac operation_step :=
  apply operation_sim;
  [ apply Low_operation;
    [ assumption | assumption
    | first [ apply Low_F | apply Low_G | apply Low_H | apply Low_I ];
      assumption
    | apply Low_X; reflexivity
    | lia ]
  | intros ? ? ?; cbv beta ].

Lemma rounds_spec (a b c d a' b' c' d' : Z) (block : Uint8Array) :
  Low a a' -> Low b b' -> Low c c' -> Low d d' ->
  Low4 (hash_rounds (a, b, c, d) block)
       (Rfc.rounds (Rfc.X block) (a', b', c', d')).
Proof.
  intros Ha Hb Hc Hd.
  unfold Rfc.rounds.
  let s := eval cbv - [Rfc.F Rfc.G Rfc.H Rfc.I] in Rfc.schedule in
  change Rfc.schedule with s.
  cbv beta iota zeta delta [hash_rounds].
  do 64 operation_step.
  cbn [fold_left]. unfold Low4. auto.
Qed.

(** [hash] on a state of 32-bit words is the compressor of the
    specification. *)
Lemma hash_compress (state : State) (block : Uint8Array) :
  State_ok state -> hash state block = Rfc.compress state block.
Proof.
  destruct state as [[[s0 s1] s2] s3].
  unfold State_ok. intros (H0 & H1 & H2 & H3).
  pose proof (rounds_spec s0 s1 s2 s3 s0 s1 s2 s3 block
                (ToUint32_word _ H0) (ToUint32_word _ H1)
                (ToUint32_word _ H2) (ToUint32_word _ H3)) as Hr.
  unfold hash, Rfc.compress.
  destruct (hash_rounds (s0, s1, s2, s3) block) as [[[a b] c] d].
  destruct (Rfc.rounds (Rfc.X block) (s0, s1, s2, s3)) as [[[a' b'] c'] d'].
  unfold Low4, Low in Hr. destruct Hr as (<- & <- & <- & <-).
  unfold Rfc.add. rewrite !shru_0, !ToUint32_mod.
  rewrite !Z.add_mod_idemp_r by lia. reflexivity.
Qed.

End RoundsSpec.

(* ================================================================== *)
(** * Two chunks of 2^32 bytes *)

Section TwoChunks.






End TwoChunks.

(* ================================================================== *)
(** * The properties of the specification *)

(** C1. The known answers: [md5] of the empty input, of "abc" and of
    "The quick brown fox jumps over the lazy dog" (as UTF-8 bytes) are the
    16-byte digests with hex encodings d41d8cd98f00b204e9800998ecf8427e,
    900150983cd24fb0d6963f7d28e17f72 and
    9e107d9d372bb6826bd81d3542a419d6. *)
Theorem md5_known_answers :
  hex_of (eval (md5 (TextEncoder_encode "")))
  = Ok "d41d8cd98f00b204e9800998ecf8427e"%string
  /\ hex_of (eval (md5 (TextEncoder_encode "abc")))
     = Ok "900150983cd24fb0d6963f7d28e17f72"%string
  /\ hex_of (eval (md5 (TextEncoder_encode
                          "The quick brown fox jumps over the lazy dog")))
     = Ok "9e107d9d372bb6826bd81d3542a419d6"%string.
Proof.
  repeat split; vm_compute; reflexivity.
Qed.




(** C4. The mixing expressions that the block compressor uses are the
    round functions of the specification.  On 32-bit words [b], [c], [d]
    the expression of round 1, [((c ^ d) & b) ^ d], is F(b,c,d), that of
    round 2, [((b ^ c) & d) ^ c], is G(b,c,d), and those of rounds 3 and 4
    are H and I (the program's expressions give a signed number, read as
    the 32-bit word it stands for).  And the compressor uses them so: on a
    state of 32-bit words, the working variables that the 64 assignments
    of [hash] end with are, modulo 2^32, those of the 64 operations of the
    specification written with F, G, H and I, and [hash] returns the state
    that the specification's compressor does. *)
Theorem round_expressions (state : State) (block : Uint8Array) :
  State_ok state ->
  (forall b c d : Z,
     word b -> word c -> word d ->
     JS.ToUint32 ((c .^ d) .& b .^ d) = Rfc.F b c d
     /\ JS.ToUint32 ((b .^ c) .& d .^ c) = Rfc.G b c d
     /\ JS.ToUint32 (b .^ c .^ d) = Rfc.H b c d
     /\ JS.ToUint32 (c .^ (b .| (.~ d))) = Rfc.I b c d)
  /\ Low4 (hash_rounds state block) (Rfc.rounds (Rfc.X block) state)
  /\ hash state block = Rfc.compress state block.
Proof.
  intros Hstate.
  split; [| split].
  - intros b c d Hb Hc Hd.
    rewrite round1_F, round2_G, round3_H, round4_I.
    rewrite !ToUint32_word by assumption.
    repeat split.
  - destruct state as [[[s0 s1] s2] s3].
    destruct Hstate as (H0 & H1 & H2 & H3).
    apply rounds_spec; apply ToUint32_word; assumption.
  - apply hash_compress. exact Hstate.
Qed.

(** C4, at the initial state and the one block of the empty message. *)
Lemma round_expressions_witness :
  State_ok initial_state
  /\ (forall b c d : Z,
        word b -> word c -> word d ->
        JS.ToUint32 ((c .^ d) .& b .^ d) = Rfc.F b c d
        /\ JS.ToUint32 ((b .^ c) .& d .^ c) = Rfc.G b c d
        /\ JS.ToUint32 (b .^ c .^ d) = Rfc.H b c d
        /\ JS.ToUint32 (c .^ (b .| (.~ d))) = Rfc.I b c d)
  /\ Low4 (hash_rounds initial_state (x80 :: repeat x00 63))
          (Rfc.rounds (Rfc.X (x80 :: repeat x00 63)) initial_state)
  /\ hash initial_state (x80 :: repeat x00 63)
     = Rfc.compress initial_state (x80 :: repeat x00 63).
Proof.
  assert (H : State_ok initial_state).
  { unfold State_ok, initial_state, word. lia. }
  split; [exact H |].
  apply (round_expressions initial_state (x80 :: repeat x00 63)).
  exact H.
Defined.

(** C5. For an input of [L] bytes, [pos] is [L mod 64] once the input went
    through [update] (lines 43 to 49 of [md5]), and the padding buffer that
    the finalization builds then has [128 - L mod 64] bytes, reaching into
    a second block, exactly when [L mod 64] is 56 to 63, and
    [64 - L mod 64] bytes, ending the current block, for the other
    remainders. *)
Theorem padding_boundary (msg : Uint8Array) (calls : nat) :
  exists state block pos n0 n1 calls' pad n0s n1s,
    (block <- new_Uint8Array BLOCK_SIZE ;;
     update initial_state block 0 0 0 msg) calls
    = Ok ((state, block, pos, n0, n1), calls')
    /\ pos = len msg mod 64
    /\ md5_pad pos n0 n1 calls' = Ok ((pad, n0s, n1s), calls')
    /\ (56 <= len msg mod 64 <= 63 /\ len pad = 128 - len msg mod 64
        /\ pos + len pad = 2 * BLOCK_SIZE
        \/ 0 <= len msg mod 64 < 56 /\ len pad = 64 - len msg mod 64
           /\ pos + len pad = BLOCK_SIZE).
Proof.
  unfold bind, BLOCK_SIZE.
  rewrite new_Uint8Array_ok by lia.
  destruct (update_spec initial_state (repeat x00 (Z.to_nat 64)) 0 0 0 msg
              calls)
    as (state' & block' & pos' & calls' & Hrun & Hblock' & Hpos' & Hmod & _);
    [reflexivity | lia |].
  rewrite Z.add_0_l in Hmod.
  destruct (padding pos' (fst (addLength 0 0 (len msg)))
              (snd (addLength 0 0 (len msg)))) as [[pad n0s] n1s] eqn:Hpad.
  exists state', block', pos', (fst (addLength 0 0 (len msg))),
    (snd (addLength 0 0 (len msg))), calls', pad, n0s, n1s.
  split; [exact Hrun |].
  split; [exact Hmod |].
  split.
  { rewrite md5_pad_ok by lia. rewrite Hpad. reflexivity. }
  pose proof (len_padding pos' (fst (addLength 0 0 (len msg)))
                (snd (addLength 0 0 (len msg)))) as Hlen.
  rewrite Hpad in Hlen. cbn [fst] in Hlen.
  rewrite Hlen by lia. rewrite <- Hmod.
  unfold padLen_of, BLOCK_SIZE.
  destruct (Z.ltb_spec (64 - pos') 9); [left | right]; lia.
Qed.

(** What a returning [update] gives for [pos], whatever the buffer. *)
Lemma update_pos_of_result (state : State) (block : Uint8Array)
    (pos n0 n1 : Z) (msg : Uint8Array) (calls : nat)
    (state' : State) (block' : Uint8Array) (pos' n0' n1' : Z) (calls' : nat) :
  0 <= pos < 64 ->
  update state block pos n0 n1 msg calls
  = Ok ((state', block', pos', n0', n1'), calls') ->
  0 <= pos' < 64
  /\ (len msg < BLOCK_SIZE - pos -> pos' = pos + len msg)
  /\ (BLOCK_SIZE - pos <= len msg ->
      pos' = (len msg - (BLOCK_SIZE - pos)) mod 64).
Proof.
  intros Hpos. pose proof (len_nonneg msg) as Hmsg.
  unfold update, bind, BLOCK_SIZE.
  destruct (Z.ltb_spec (len msg) (64 - pos)) as [Hshort | Hlong].
  - destruct (set block msg pos calls) as [[b c] | |]; try discriminate.
    unfold ret. destruct (addLength n0 n1 (len msg)) as [m0 m1].
    intros H. assert (Hp : pos' = pos + len msg) by congruence. lia.
  - destruct (set block (slice msg 0 (64 - pos)) pos calls) as [[b c] | |];
      try discriminate.
    unfold call_hash.
    destruct (update_loop_spec (List.length msg) (hash state b) msg
                (64 - pos) (S c))
      as (st & k & c' & Hrun & Hk & Hj & _).
    { lia. }
    { unfold len in *. lia. }
    rewrite Hrun.
    destruct (set (fill b 0) (slice_from msg (64 - pos + 64 * k)) 0 c')
      as [[b2 c2] | |]; try discriminate.
    unfold ret. destruct (addLength n0 n1 (len msg)) as [m0 m1].
    intros H.
    assert (Hp : pos' = len msg - (64 - pos + 64 * k)) by congruence.
    clear H. subst pos'.
    split; [lia |]. split; [lia |].
    intros _. apply (Z.mod_unique _ _ k); lia.
Qed.

(** C7. A call of [update] with [0 <= pos < 64] returns a [pos] in
    [0, 64) again, for a chunk of any length: [pos + length] when the chunk
    is shorter than the free space, and otherwise what is left of the chunk
    after the free space and the whole blocks that follow.  The call does
    return when the buffer has its 64 bytes. *)
Theorem update_pos_range (state : State) (block : Uint8Array)
    (pos n0 n1 : Z) (msg : Uint8Array) (calls : nat) :
  0 <= pos < 64 ->
  (forall state' block' pos' n0' n1' calls',
      update state block pos n0 n1 msg calls
      = Ok ((state', block', pos', n0', n1'), calls') ->
      0 <= pos' < 64
      /\ (len msg < BLOCK_SIZE - pos -> pos' = pos + len msg)
      /\ (BLOCK_SIZE - pos <= len msg ->
          pos' = (len msg - (BLOCK_SIZE - pos)) mod 64))
  /\ (len block = BLOCK_SIZE ->
      exists state' block' pos' n0' n1' calls',
        update state block pos n0 n1 msg calls
        = Ok ((state', block', pos', n0', n1'), calls')).
Proof.
  intros Hpos. split.
  - intros state' block' pos' n0' n1' calls' Hrun.
    exact (update_pos_of_result _ _ _ _ _ _ _ _ _ _ _ _ _ Hpos Hrun).
  - intros Hblock.
    destruct (update_spec state block pos n0 n1 msg calls Hblock Hpos)
      as (state' & block' & pos' & calls' & Hrun & _).
    exists state', block', pos', (fst (addLength n0 n1 (len msg))),
      (snd (addLength n0 n1 (len msg))), calls'.
    exact Hrun.
Qed.

(** C7, at an input: three bytes arriving at [pos = 62]. *)
Lemma update_pos_range_witness :
  0 <= 62 < 64
  /\ (forall state' block' pos' n0' n1' calls',
         update initial_state (repeat x00 64) 62 62 0
           ["a"%byte; "b"%byte; "c"%byte] O
         = Ok ((state', block', pos', n0', n1'), calls') ->
         0 <= pos' < 64
         /\ (len ["a"%byte; "b"%byte; "c"%byte] < BLOCK_SIZE - 62 ->
             pos' = 62 + len ["a"%byte; "b"%byte; "c"%byte])
         /\ (BLOCK_SIZE - 62 <= len ["a"%byte; "b"%byte; "c"%byte] ->
             pos' = (len ["a"%byte; "b"%byte; "c"%byte]
                     - (BLOCK_SIZE - 62)) mod 64))
  /\ (len (repeat x00 64) = BLOCK_SIZE ->
      exists state' block' pos' n0' n1' calls',
        update initial_state (repeat x00 64) 62 62 0
          ["a"%byte; "b"%byte; "c"%byte] O
        = Ok ((state', block', pos', n0', n1'), calls')).
Proof.
  split.
  - lia.
  - apply (update_pos_range initial_state (repeat x00 64) 62 62 0
             ["a"%byte; "b"%byte; "c"%byte] O).
    lia.
Defined.

(** C8. On a context with [0 <= pos < 64] (its buffer of 64 bytes, its
    low counter word a 32-bit word), [update] with an empty chunk returns
    the state, the buffer, [pos], [n0] and [n1] as they were, and the count
    of compressor calls is the same after as before: none was made. *)
Theorem update_empty (state : State) (block : Uint8Array) (pos n0 n1 : Z)
    (calls : nat) :
  len block = BLOCK_SIZE -> 0 <= pos < 64 -> word n0 ->
  update state block pos n0 n1 [] calls
  = Ok ((state, block, pos, n0, n1), calls).
Proof.
  unfold BLOCK_SIZE, word. intros Hblock Hpos Hn0.
  unfold update, bind, BLOCK_SIZE. change (len []) with 0.
  destruct (Z.ltb_spec 0 (64 - pos)); [| lia].
  rewrite set_ok by (change (len []) with 0; lia).
  unfold ret, addLength. change (len []) with 0.
  rewrite !Z.add_0_r.
  destruct (Z.gtb_spec n0 0xffffffff); [lia |].
  rewrite shru_0, Z.mod_small by lia.
  cbn [app]. rewrite firstn_skipn. reflexivity.
Qed.

(** C8, at the initial context. *)
Lemma update_empty_witness :
  len (repeat x00 64) = BLOCK_SIZE /\ 0 <= 0 < 64 /\ word 0
  /\ update initial_state (repeat x00 64) 0 0 0 [] O
     = Ok ((initial_state, repeat x00 64, 0, 0, 0), O).
Proof.
  split; [reflexivity |]. split; [lia |]. split; [unfold word; lia |].
  apply (update_empty initial_state (repeat x00 64) 0 0 0 O).
  - reflexivity.
  - lia.
  - unfold word. lia.
Defined.

(** C9. For every input, of any length, [md5] produces a result, and the
    result has exactly 16 bytes. *)
Theorem md5_total (msg : Uint8Array) :
  exists digest : ArrayBuffer,
    eval (md5 msg) = Ok digest /\ List.length digest = 16%nat.
Proof.
  exists (md5_stream msg). split.
  - apply md5_stream_correct.
  - unfold md5_stream.
    destruct (addLength 0 0 (len msg)) as [n0 n1].
    destruct (padding (len msg mod 64) n0 n1) as [[pad n0s] n1s].
    pose proof (len_digest_bytes
                  (fst (absorb (initial_state, []) (msg ++ pad)))) as H.
    unfold len in H. lia.
Qed.

(** C10. The state that [hash] returns has its four words in [0, 2^32),
    for every state and block given to it (so for every state of words in
    [0, 2^32) and every 64-byte block), although the working variables the
    rounds end with need not be: they are negative for the initial state
    and the block that starts with byte 3 and is zero elsewhere. *)
Theorem hash_State_ok :
  (forall (state : State) (block : Uint8Array), State_ok (hash state block))
  /\ (let '(a, b, c, d) := hash_rounds initial_state (x03 :: repeat x00 63) in
      a < 0 /\ c < 0 /\ d < 0).
Proof.
  split.
  - intros state block. unfold hash.
    destruct (hash_rounds state block) as [[[a b] c] d].
    destruct state as [[[s0 s1] s2] s3].
    unfold State_ok, word. rewrite !shru_0.
    repeat split; apply Z.mod_pos_bound; lia.
  - vm_compute. repeat split.
Qed.

(** C6. For a total input length [L] below 2^32 bytes, fed through
    [update] in any sequence of chunks, the counter words afterwards
    satisfy [n1 * 2^32 + n0 = L] with [0 <= n0 < 2^32]; and the last eight
    bytes of the padding buffer are [8 * L] as a little-endian 64-bit
    number: its low word is [8 * n0] modulo 2^32 and its high word holds
    the top three bits of [n0]. *)
Theorem length_encoding (chunks : list Uint8Array) (calls : nat) :
  len (List.concat chunks) < 2 ^ 32 ->
  exists state block pos n0 n1 calls' pad n0s n1s,
    (block <- new_Uint8Array BLOCK_SIZE ;;
     feed (initial_state, block, 0, 0, 0) chunks) calls
    = Ok ((state, block, pos, n0, n1), calls')
    /\ n1 * 2 ^ 32 + n0 = len (List.concat chunks)
    /\ 0 <= n0 < 2 ^ 32
    /\ md5_pad pos n0 n1 calls' = Ok ((pad, n0s, n1s), calls')
    /\ le_decode (last_bytes 8 pad) = 8 * len (List.concat chunks)
    /\ le_decode (firstn 4 (last_bytes 8 pad)) = (8 * n0) mod 2 ^ 32
    /\ le_decode (last_bytes 4 pad) = 8 * n1 + n0 / 2 ^ 29.
Proof.
  intros Hlimit.
  pose proof (len_nonneg (List.concat chunks)) as Hnonneg.
  unfold bind, BLOCK_SIZE.
  rewrite new_Uint8Array_ok by lia.
  destruct (feed_spec chunks initial_state (repeat x00 (Z.to_nat 64))
              0 0 0 calls)
    as (state' & block' & pos' & n0' & n1' & calls' & Hfeed & Hblock'
        & Hpos' & _ & _ & Hcount); [reflexivity | lia |].
  destruct Hcount as [Hinv Hrange]; [lia | lia |].
  assert (Hn0 : n0' = len (List.concat chunks)) by lia.
  assert (Hn1 : n1' = 0) by lia.
  clear Hinv Hrange. subst n0' n1'.
  set (L := len (List.concat chunks)) in *.
  destruct (padding_spec pos' L 0 Hpos') as (head & Hpad & Hhead).
  eexists state', block', pos', L, 0, calls', _, _, _.
  split; [exact Hfeed |].
  split; [lia |].
  split; [lia |].
  split.
  { rewrite md5_pad_ok by lia. rewrite Hpad. reflexivity. }
  rewrite high_word by (unfold word; lia).
  set (N0 := L .<< 3). set (N1 := L / 2 ^ 29).
  assert (HN1 : JS.ToUint32 N1 = N1).
  { apply ToUint32_word. unfold word, N1. split.
    - apply Z.div_pos; lia.
    - apply Z.div_lt_upper_bound; lia. }
  assert (HN0 : JS.ToUint32 N0 = (8 * L) mod 2 ^ 32)
    by apply ToUint32_shl3.
  assert (Hlast8 : last_bytes 8 (head ++ counter_bytes N0 ++ counter_bytes N1)
                   = counter_bytes N0 ++ counter_bytes N1)
    by apply (last_bytes_app head (counter_bytes N0 ++ counter_bytes N1)).
  assert (Hlast4 : last_bytes 4 (head ++ counter_bytes N0 ++ counter_bytes N1)
                   = counter_bytes N1).
  { rewrite app_assoc.
    apply (last_bytes_app (head ++ counter_bytes N0) (counter_bytes N1)). }
  rewrite Hlast8, Hlast4.
  split; [| split].
  - rewrite le_decode_app, !le_decode_word, HN0, HN1.
    change (256 ^ Z.of_nat (List.length (counter_bytes N0))) with (2 ^ 32).
    unfold N1.
    pose proof (Z.div_mod (8 * L) (2 ^ 32) ltac:(lia)) as Hdm.
    replace (L / 2 ^ 29) with (8 * L / 2 ^ 32).
    + lia.
    + change (2 ^ 32) with (8 * 2 ^ 29).
      rewrite Z.div_mul_cancel_l by lia. reflexivity.
  - change (firstn 4 (counter_bytes N0 ++ counter_bytes N1))
      with (counter_bytes N0).
    rewrite le_decode_word. exact HN0.
  - rewrite le_decode_word, HN1. unfold N1. lia.
Qed.

(** C6, at an input: "abc" fed as "a" and "bc". *)
Lemma length_encoding_witness :
  len (List.concat [["a"%byte]; ["b"%byte; "c"%byte]]) < 2 ^ 32
  /\ exists state block pos n0 n1 calls' pad n0s n1s,
       (block <- new_Uint8Array BLOCK_SIZE ;;
        feed (initial_state, block, 0, 0, 0)
          [["a"%byte]; ["b"%byte; "c"%byte]]) O
       = Ok ((state, block, pos, n0, n1), calls')
       /\ n1 * 2 ^ 32 + n0
          = len (List.concat [["a"%byte]; ["b"%byte; "c"%byte]])
       /\ 0 <= n0 < 2 ^ 32
       /\ md5_pad pos n0 n1 calls' = Ok ((pad, n0s, n1s), calls')
       /\ le_decode (last_bytes 8 pad)
          = 8 * len (List.concat [["a"%byte]; ["b"%byte; "c"%byte]])
       /\ le_decode (firstn 4 (last_bytes 8 pad)) = (8 * n0) mod 2 ^ 32
       /\ le_decode (last_bytes 4 pad) = 8 * n1 + n0 / 2 ^ 29.
Proof.
  split.
  - reflexivity.
  - apply (length_encoding [["a"%byte]; ["b"%byte; "c"%byte]] O).
    reflexivity.
Defined.

(** C2 as the specification has it does not hold: the digest
    014842d480b571495a4a0363793f7367 is not that of 66 bytes "a". *)
Lemma md5_66_a_counterexample :
  ~ (hex_of (eval (md5 (all_a 56)))
     = Ok "3b0c8ac703f828b04c6c197006d17218"%string
     /\ hex_of (eval (md5 (all_a 66)))
        = Ok "014842d480b571495a4a0363793f7367"%string
     /\ hex_of (eval (md5 (all_a 1000000)))
        = Ok "7707d6ae4e027c70eea2a935c2296f21"%string).
Proof.
  intros (_ & H & _). vm_compute in H. discriminate H.
Qed.

(** What [md5] gives for 66 bytes "a". *)
Lemma digest_of_66_a :
  hex_of (eval (md5 (all_a 66)))
  = Ok "def5d97e01e1219fb2fc8da6c4d6ba2f"%string.
Proof. vm_compute. reflexivity. Qed.

(** C2, amended.  [md5] of 56 bytes "a" is
    3b0c8ac703f828b04c6c197006d17218, of 64 bytes "a" (the string of the
    test suite) 014842d480b571495a4a0363793f7367, and of one million bytes
    "a" 7707d6ae4e027c70eea2a935c2296f21. *)
Theorem md5_all_a_answers :
  hex_of (eval (md5 (all_a 56)))
  = Ok "3b0c8ac703f828b04c6c197006d17218"%string
  /\ hex_of (eval (md5 (all_a 64)))
     = Ok "014842d480b571495a4a0363793f7367"%string
  /\ hex_of (eval (md5 (all_a 1000000)))
     = Ok "7707d6ae4e027c70eea2a935c2296f21"%string.
Proof.
  split; [vm_compute; reflexivity |].
  split; [vm_compute; reflexivity |].
  rewrite md5_stream_correct, md5_fast_correct.
  vm_cast_no_check
    (@eq_refl (result string) (Ok "7707d6ae4e027c70eea2a935c2296f21"%string)).
Qed.

(* ================================================================== *)
(** * Further properties of the program *)

(* ================================================================== *)
(** * The rotation *)

Section Words.

(** X1. [rol32] rotates the low 32 bits to the left: for a count [n]
    between 1 and 31, bit [i] of the result is bit [i - n] of the
    operand, counted modulo 32. *)
Theorem rol32_testbit (x n i : Z) :
  0 < n < 32 -> 0 <= i < 32 ->
  Z.testbit (rol32 x n) i = Z.testbit x ((i - n) mod 32).
Proof.
  intros Hn Hi. rewrite rol32_bit by lia.
  destruct (Z.leb_spec n i) as [E | E].
  - rewrite Z.mod_small by lia. reflexivity.
  - f_equal. apply (Z.mod_unique _ _ (-1)); lia.
Qed.

(** X1, at an input: bit 3 of [rol32 1 3] is bit 0 of 1. *)
Lemma rol32_testbit_witness :
  0 < 3 < 32 /\ 0 <= 3 < 32
  /\ Z.testbit (rol32 1 3) 3 = Z.testbit 1 ((3 - 3) mod 32).
Proof.
  split; [lia |]. split; [lia |].
  apply (rol32_testbit 1 3 3); lia.
Defined.

(** X2. Rotating by [n] and then by [32 - n] gives the word back. *)
Theorem rol32_inverse (x n : Z) :
  0 < n < 32 ->
  JS.ToUint32 (rol32 (rol32 x n) (32 - n)) = JS.ToUint32 x.
Proof.
  intros Hn. apply Z.bits_inj'. intros i Hi.
  rewrite !testbit_ToUint32 by lia.
  destruct (Z.ltb_spec i 32) as [E | E]; [| reflexivity].
  cbn [andb].
  rewrite rol32_bit by lia.
  destruct (Z.leb_spec (32 - n) i) as [E1 | E1].
  - rewrite rol32_bit by lia.
    destruct (Z.leb_spec n (i - (32 - n))); [lia |]. f_equal. lia.
  - rewrite rol32_bit by lia.
    destruct (Z.leb_spec n (i + (32 - (32 - n)))); [| lia]. f_equal. lia.
Qed.

(** X2, at an input. *)
Lemma rol32_inverse_witness :
  0 < 7 < 32
  /\ JS.ToUint32 (rol32 (rol32 0xd76aa478 7) (32 - 7))
     = JS.ToUint32 0xd76aa478.
Proof.
  split; [lia |]. apply (rol32_inverse 0xd76aa478 7). lia.
Defined.

End Words.

(* ================================================================== *)
(** * The words of a block and of the digest *)

Section BlockWords.

(** X3. [blk] reads the four bytes at the index [i] as a little-endian
    32-bit word; bytes past the end of the block read as zero, so that the
    word is 0 when [i] is at the end or past it. *)
Theorem blk_little_endian (block : Uint8Array) (i : Z) :
  0 <= i ->
  JS.ToUint32 (blk block i)
  = le_decode (firstn 4 (skipn (Z.to_nat i) block))
  /\ (len block <= i -> JS.ToUint32 (blk block i) = 0).
Proof.
  intros Hi.
  assert (Hle : JS.ToUint32 (blk block i)
                = le_decode (firstn 4 (skipn (Z.to_nat i) block))).
  { rewrite <- (Z2Nat.id i) at 1 by exact Hi. apply blk_le_decode. }
  split; [exact Hle |].
  intros Hlen. rewrite Hle.
  rewrite skipn_all2 by (unfold len in Hlen; lia).
  reflexivity.
Qed.

(** X3, at an input. *)
Lemma blk_little_endian_witness :
  0 <= 1
  /\ JS.ToUint32 (blk ["a"%byte; "b"%byte; "c"%byte] 1)
     = le_decode (firstn 4 (skipn (Z.to_nat 1) ["a"%byte; "b"%byte; "c"%byte]))
  /\ (len ["a"%byte; "b"%byte; "c"%byte] <= 1 ->
      JS.ToUint32 (blk ["a"%byte; "b"%byte; "c"%byte] 1) = 0).
Proof.
  split; [lia |]. apply (blk_little_endian ["a"%byte; "b"%byte; "c"%byte] 1).
  lia.
Defined.

(** X4. The digest holds the state words A, B, C, D in this order, each
    in little-endian bytes: [blk] at the offsets 0, 4, 8 and 12 of the
    digest reads them back. *)
Theorem digest_reads_back (s0 s1 s2 s3 : Z) (calls : nat) :
  exists digest : ArrayBuffer,
    md5_digest (s0, s1, s2, s3) calls = Ok (digest, calls)
    /\ len digest = 16
    /\ JS.ToUint32 (blk digest 0) = JS.ToUint32 s0
    /\ JS.ToUint32 (blk digest 4) = JS.ToUint32 s1
    /\ JS.ToUint32 (blk digest 8) = JS.ToUint32 s2
    /\ JS.ToUint32 (blk digest 12) = JS.ToUint32 s3.
Proof.
  exists (digest_bytes (s0, s1, s2, s3)).
  split; [apply md5_digest_ok |].
  split; [apply len_digest_bytes |].
  unfold digest_bytes.
  repeat split.
  - rewrite (blk_le_decode _ 0). apply le_decode_word_le.
  - rewrite (blk_le_decode _ 4). apply le_decode_word_le.
  - rewrite (blk_le_decode _ 8). apply le_decode_word_le.
  - rewrite (blk_le_decode _ 12). apply le_decode_word_le.
Qed.

End BlockWords.

(* ================================================================== *)
(** * What the compressor reads *)

Section HashReads.

Lemma ToUint32_add_congr (x y x' y' : Z) :
  JS.ToUint32 x = JS.ToUint32 x' -> JS.ToUint32 y = JS.ToUint32 y' ->
  (x + y) .>>> 0 = (x' + y') .>>> 0.
Proof.
  intros Hx Hy. rewrite !shru_0.
  rewrite (Z.add_mod x y), (Z.add_mod x' y') by lia.
  rewrite <- !ToUint32_mod, Hx, Hy. reflexivity.
Qed.

Lemma get_normal (block : Uint8Array) (i : Z) :
  i < 64 -> get (firstn 64 (block ++ repeat x00 64)) i = get block i.
Proof.
  intros Hi. unfold get.
  destruct (Z.ltb_spec i 0); [reflexivity |].
  rewrite nth_error_firstn.
  destruct (Nat.ltb_spec (Z.to_nat i) 64); [| lia].
  destruct (Nat.lt_ge_cases (Z.to_nat i) (List.length block)) as [E | E].
  - rewrite nth_error_app1 by exact E. reflexivity.
  - rewrite nth_error_app2 by exact E.
    rewrite (proj2 (nth_error_None block (Z.to_nat i))) by exact E.
    rewrite nth_error_repeat by lia. reflexivity.
Qed.

Lemma blk_normal (block : Uint8Array) (i : Z) :
  i <= 60 -> blk (firstn 64 (block ++ repeat x00 64)) i = blk block i.
Proof.
  intros Hi. unfold blk. rewrite !get_normal by lia. reflexivity.
Qed.

(** X6. [hash] reads the first 64 bytes of the block it is given, a byte
    that is missing as zero: the block cut or filled with zeros to 64
    bytes is compressed to the same state. *)
Theorem hash_block_64 (state : State) (block : Uint8Array) :
  hash state block = hash state (firstn 64 (block ++ repeat x00 64)).
Proof.
  unfold hash.
  replace (hash_rounds state (firstn 64 (block ++ repeat x00 64)))
    with (hash_rounds state block); [reflexivity |].
  unfold hash_rounds.
  rewrite !blk_normal by lia. reflexivity.
Qed.

End HashReads.

(* ================================================================== *)
(** * More on [update] *)

Section UpdateMore.

(** The loop, with the number of blocks it compresses. *)
Lemma update_loop_calls (fuel : nat) :
  forall (state : State) (msg : Uint8Array) (i : Z) (calls : nat),
    0 <= i <= len msg ->
    len msg - i < 64 * (Z.of_nat fuel + 1) ->
    exists state',
      update_loop fuel state msg i calls
      = Ok ((state', i + 64 * ((len msg - i) / 64)),
            (calls + Z.to_nat ((len msg - i) / 64))%nat).
Proof.
  induction fuel as [| fuel IH]; intros state msg i calls Hi Hfuel.
  - cbn [update_loop]. unfold BLOCK_SIZE.
    destruct (Z.leb_spec (i + 64) (len msg)) as [E | E]; [lia |].
    exists state. rewrite Z.div_small by lia.
    rewrite Z.mul_0_r, Z.add_0_r, Nat.add_0_r. reflexivity.
  - cbn [update_loop]. unfold BLOCK_SIZE.
    destruct (Z.leb_spec (i + 64) (len msg)) as [E | E].
    + unfold bind, call_hash.
      destruct (IH (hash state (slice msg i (i + 64))) msg (i + 64) (S calls))
        as (state' & Hrun); [lia | lia |].
      exists state'. rewrite Hrun.
      replace (len msg - i) with (len msg - (i + 64) + 1 * 64) by lia.
      rewrite Z.div_add by lia.
      assert (0 <= (len msg - (i + 64)) / 64) by (apply Z.div_pos; lia).
      f_equal. f_equal; [f_equal; lia | lia].
    + exists state. rewrite Z.div_small by lia.
      rewrite Z.mul_0_r, Z.add_0_r, Nat.add_0_r. reflexivity.
Qed.

Lemma update_run_calls (state : State) (block : Uint8Array) (pos n0 n1 : Z)
    (msg : Uint8Array) (calls : nat) :
  len block = BLOCK_SIZE -> 0 <= pos < 64 ->
  exists ctx,
    update state block pos n0 n1 msg calls
    = Ok (ctx, (calls + Z.to_nat ((pos + len msg) / 64))%nat).
Proof.
  unfold BLOCK_SIZE. intros Hblock Hpos.
  pose proof (len_nonneg msg) as Hmsg.
  unfold update, bind, BLOCK_SIZE.
  destruct (Z.ltb_spec (len msg) (64 - pos)) as [Hshort | Hlong].
  - rewrite set_ok by lia. unfold ret.
    destruct (addLength n0 n1 (len msg)) as [m0 m1].
    eexists. rewrite Z.div_small by lia. rewrite Nat.add_0_r. reflexivity.
  - rewrite slice_firstn_skipn by lia.
    rewrite Z.sub_0_r. cbn [skipn Z.to_nat].
    change (skipn 0 msg) with msg.
    rewrite set_ok by (rewrite ?len_firstn; lia).
    unfold call_hash.
    rewrite len_firstn by lia.
    replace (pos + (64 - pos)) with 64 by lia.
    rewrite (skipn_all2 (n := Z.to_nat 64) block) by (unfold len in *; lia).
    rewrite app_nil_r.
    set (block1 := firstn (Z.to_nat pos) block
                   ++ firstn (Z.to_nat (64 - pos)) msg).
    assert (Hblock1 : len block1 = 64).
    { unfold block1. rewrite len_app, !len_firstn by lia. lia. }
    destruct (update_loop_calls (List.length msg) (hash state block1) msg
                (64 - pos) (S calls)) as (state' & Hrun).
    { lia. }
    { unfold len in *. lia. }
    rewrite Hrun.
    assert (Hq : 0 <= (len msg - (64 - pos)) / 64) by (apply Z.div_pos; lia).
    pose proof (Z.mod_pos_bound (len msg - (64 - pos)) 64 ltac:(lia)) as Hr.
    pose proof (Z.div_mod (len msg - (64 - pos)) 64 ltac:(lia)) as Hdm.
    rewrite slice_from_skipn by lia.
    rewrite set_ok by (rewrite ?len_skipn, ?len_fill by lia; lia).
    unfold ret. destruct (addLength n0 n1 (len msg)) as [m0 m1].
    eexists. f_equal. f_equal.
    replace (pos + len msg) with (len msg - (64 - pos) + 1 * 64) by lia.
    rewrite Z.div_add by lia. lia.
Qed.

(** X7. A call of [update] on a context in range invokes the compressor
    once for each block that the buffered bytes and the chunk complete:
    [(pos + length) / 64] times. *)
Theorem update_calls (state : State) (block : Uint8Array) (pos n0 n1 : Z)
    (msg : Uint8Array) (calls : nat) :
  len block = BLOCK_SIZE -> 0 <= pos < 64 ->
  exists state' block' pos' n0' n1' calls',
    update state block pos n0 n1 msg calls
    = Ok ((state', block', pos', n0', n1'), calls')
    /\ Z.of_nat calls' = Z.of_nat calls + (pos + len msg) / 64.
Proof.
  intros Hblock Hpos.
  destruct (update_run_calls state block pos n0 n1 msg calls Hblock Hpos)
    as ([[[[state' block'] pos'] n0'] n1'] & Hrun).
  exists state', block', pos', n0', n1',
    (calls + Z.to_nat ((pos + len msg) / 64))%nat.
  split; [exact Hrun |].
  pose proof (len_nonneg msg) as Hmsg.
  assert (0 <= (pos + len msg) / 64) by (apply Z.div_pos; lia).
  lia.
Qed.

(** X7, at an input: 70 bytes arriving at [pos = 60] complete two
    blocks. *)
Lemma update_calls_witness :
  len (repeat x00 64) = BLOCK_SIZE /\ 0 <= 60 < 64
  /\ exists state' block' pos' n0' n1' calls',
       update initial_state (repeat x00 64) 60 60 0 (all_a 70) O
       = Ok ((state', block', pos', n0', n1'), calls')
       /\ Z.of_nat calls' = Z.of_nat 0 + (60 + len (all_a 70)) / 64.
Proof.
  split; [reflexivity |]. split; [lia |].
  apply (update_calls initial_state (repeat x00 64) 60 60 0 (all_a 70) O);
    [reflexivity | lia].
Defined.

Lemma skipn_app_exact {A : Type} (l1 l2 : list A) (n : nat) :
  n = List.length l1 -> skipn n (l1 ++ l2) = l2.
Proof.
  intros ->. rewrite skipn_app, skipn_all, Nat.sub_diag. reflexivity.
Qed.

Lemma skipn_repeat {A : Type} (x : A) (n m : nat) :
  skipn n (repeat x m) = repeat x (m - n).
Proof.
  revert m. induction n as [| n IH]; intros m.
  - rewrite Nat.sub_0_r. reflexivity.
  - destruct m as [| m]; [reflexivity |]. cbn [repeat skipn]. apply IH.
Qed.

(** X8. After a call of [update] on a context in range, the first [pos]
    bytes of the buffer are the last [pos] bytes of what was buffered
    followed by the chunk: the bytes that no compressed block took.  The
    rest of the buffer is as it was when nothing was compressed, and zero
    when something was. *)
Theorem update_buffer (state : State) (block : Uint8Array) (pos n0 n1 : Z)
    (msg : Uint8Array) (calls : nat) :
  len block = BLOCK_SIZE -> 0 <= pos < 64 ->
  exists state' block' pos' n0' n1' calls',
    update state block pos n0 n1 msg calls
    = Ok ((state', block', pos', n0', n1'), calls')
    /\ firstn (Z.to_nat pos') block'
       = last_bytes (Z.to_nat pos') (firstn (Z.to_nat pos) block ++ msg)
    /\ (len msg < BLOCK_SIZE - pos ->
        skipn (Z.to_nat pos') block' = skipn (Z.to_nat pos') block)
    /\ (BLOCK_SIZE - pos <= len msg ->
        skipn (Z.to_nat pos') block'
        = repeat x00 (Z.to_nat (BLOCK_SIZE - pos'))).
Proof.
  unfold BLOCK_SIZE. intros Hblock Hpos.
  pose proof (len_nonneg msg) as Hmsg.
  assert (Hbuf : List.length (firstn (Z.to_nat pos) block) = Z.to_nat pos).
  { rewrite length_firstn. unfold len in *. lia. }
  unfold update, bind, BLOCK_SIZE.
  destruct (Z.ltb_spec (len msg) (64 - pos)) as [Hshort | Hlong].
  - rewrite set_ok by lia. unfold ret.
    destruct (addLength n0 n1 (len msg)) as [m0 m1].
    eexists state, _, (pos + len msg), m0, m1, calls.
    split; [reflexivity |].
    assert (Hlen : Z.to_nat (pos + len msg)
                   = List.length (firstn (Z.to_nat pos) block ++ msg)).
    { rewrite length_app, Hbuf. unfold len in *. lia. }
    split; [| split].
    + rewrite app_assoc, firstn_app_exact by exact Hlen.
      unfold last_bytes. rewrite <- Hlen, Nat.sub_diag. reflexivity.
    + intros _. rewrite app_assoc, skipn_app_exact by exact Hlen.
      reflexivity.
    + intros H. lia.
  - rewrite slice_firstn_skipn by lia.
    rewrite Z.sub_0_r. cbn [skipn Z.to_nat].
    change (skipn 0 msg) with msg.
    rewrite set_ok by (rewrite ?len_firstn; lia).
    unfold call_hash.
    rewrite len_firstn by lia.
    replace (pos + (64 - pos)) with 64 by lia.
    rewrite (skipn_all2 (n := Z.to_nat 64) block) by (unfold len in *; lia).
    rewrite app_nil_r.
    set (block1 := firstn (Z.to_nat pos) block
                   ++ firstn (Z.to_nat (64 - pos)) msg).
    assert (Hblock1 : len block1 = 64).
    { unfold block1. rewrite len_app, !len_firstn by lia. lia. }
    destruct (update_loop_calls (List.length msg) (hash state block1) msg
                (64 - pos) (S calls)) as (state' & Hrun).
    { lia. }
    { unfold len in *. lia. }
    rewrite Hrun.
    assert (Hq : 0 <= (len msg - (64 - pos)) / 64) by (apply Z.div_pos; lia).
    pose proof (Z.mod_pos_bound (len msg - (64 - pos)) 64 ltac:(lia)) as Hr.
    pose proof (Z.div_mod (len msg - (64 - pos)) 64 ltac:(lia)) as Hdm.
    set (j := 64 - pos + 64 * ((len msg - (64 - pos)) / 64)) in *.
    rewrite slice_from_skipn by lia.
    rewrite set_ok by (rewrite ?len_skipn, ?len_fill by lia; lia).
    unfold ret. destruct (addLength n0 n1 (len msg)) as [m0 m1].
    eexists state', _, (len msg - j), m0, m1, _.
    split; [reflexivity |].
    cbn [firstn Z.to_nat app].
    assert (Hlen : Z.to_nat (len msg - j)
                   = List.length (skipn (Z.to_nat j) msg)).
    { rewrite length_skipn. unfold len in *. lia. }
    split; [| split].
    + rewrite firstn_app_exact by exact Hlen.
      unfold last_bytes. rewrite skipn_app, length_app, Hbuf.
      rewrite (skipn_all2 (firstn (Z.to_nat pos) block))
        by (rewrite Hbuf; unfold len in *; lia).
      cbn [app]. f_equal. unfold len in *. lia.
    + intros H. lia.
    + intros _. rewrite skipn_app_exact by exact Hlen.
      rewrite Z.add_0_l, len_skipn by lia.
      unfold fill. change (ToUint8 0) with x00.
      rewrite skipn_repeat. f_equal. unfold len in *. lia.
Qed.

(** X8, at an input: "abc" arriving at [pos = 62]. *)
Lemma update_buffer_witness :
  len (repeat x00 64) = BLOCK_SIZE /\ 0 <= 62 < 64
  /\ exists state' block' pos' n0' n1' calls',
       update initial_state (repeat x00 64) 62 62 0
         ["a"%byte; "b"%byte; "c"%byte] O
       = Ok ((state', block', pos', n0', n1'), calls')
       /\ firstn (Z.to_nat pos') block'
          = last_bytes (Z.to_nat pos')
              (firstn (Z.to_nat 62) (repeat x00 64)
               ++ ["a"%byte; "b"%byte; "c"%byte])
       /\ (len ["a"%byte; "b"%byte; "c"%byte] < BLOCK_SIZE - 62 ->
           skipn (Z.to_nat pos') block'
           = skipn (Z.to_nat pos') (repeat x00 64))
       /\ (BLOCK_SIZE - 62 <= len ["a"%byte; "b"%byte; "c"%byte] ->
           skipn (Z.to_nat pos') block'
           = repeat x00 (Z.to_nat (BLOCK_SIZE - pos'))).
Proof.
  split; [reflexivity |]. split; [lia |].
  apply (update_buffer initial_state (repeat x00 64) 62 62 0
           ["a"%byte; "b"%byte; "c"%byte] O); [reflexivity | lia].
Defined.

(** X9. With a [pos] below 0 or above 64, a call of [update] on a 64-byte
    buffer ends in a [RangeError] and returns no context, whatever the
    state, the chunk, the counter words and the count of calls so far. *)
Theorem update_bad_pos (state : State) (block : Uint8Array) (pos n0 n1 : Z)
    (msg : Uint8Array) (calls : nat) :
  len block = BLOCK_SIZE -> pos < 0 \/ 64 < pos ->
  update state block pos n0 n1 msg calls = RangeError.
Proof.
  unfold BLOCK_SIZE. intros Hblock Hpos.
  pose proof (len_nonneg msg) as Hmsg.
  unfold update, bind, BLOCK_SIZE.
  destruct (Z.ltb_spec (len msg) (64 - pos)) as [Hshort | Hlong].
  - unfold set.
    destruct (Z.ltb_spec pos 0); [reflexivity | lia].
  - pose proof (len_nonneg (slice msg 0 (64 - pos))) as Hslice.
    unfold set.
    destruct (Z.ltb_spec pos 0); [reflexivity |].
    destruct (Z.ltb_spec (len block) (len (slice msg 0 (64 - pos)) + pos));
      [reflexivity | lia].
Qed.

(** X9, at an input. *)
Lemma update_bad_pos_witness :
  len (repeat x00 64) = BLOCK_SIZE /\ (65 < 0 \/ 64 < 65)
  /\ update initial_state (repeat x00 64) 65 0 0 [] O = RangeError.
Proof.
  split; [reflexivity |]. split; [right; lia |].
  apply (update_bad_pos initial_state (repeat x00 64) 65 0 0 [] O);
    [reflexivity | right; lia].
Defined.

End UpdateMore.

(* ================================================================== *)
(** * The byte count and the length field *)

Section Counters.

Lemma feed_counts_from (chunks : list Uint8Array) :
  forall (state : State) (block : Uint8Array) (pos n0 n1 : Z) (calls : nat),
    len block = 64 -> 0 <= pos < 64 -> 0 <= n0 < 2 ^ 32 ->
    Forall (fun msg => len msg <= 2 ^ 32) chunks ->
    exists state' block' pos' n0' n1' calls',
      feed (state, block, pos, n0, n1) chunks calls
      = Ok ((state', block', pos', n0', n1'), calls')
      /\ n1' * 2 ^ 32 + n0' = n1 * 2 ^ 32 + n0 + len (List.concat chunks)
      /\ 0 <= n0' < 2 ^ 32.
Proof.
  induction chunks as [| msg rest IH];
    intros state block pos n0 n1 calls Hblock Hpos Hn0 Hall.
  - exists state, block, pos, n0, n1, calls. cbn [feed List.concat].
    change (len []) with 0. repeat split; lia.
  - inversion Hall as [| ? ? Hmsg Hrest]; subst.
    cbn [feed List.concat]. unfold bind.
    destruct (update_spec state block pos n0 n1 msg calls Hblock Hpos)
      as (state1 & block1 & pos1 & calls1 & Hrun & Hblock1 & Hpos1 & _).
    rewrite Hrun.
    pose proof (len_nonneg msg) as Hnonneg.
    destruct (addLength_spec n0 n1 (len msg)) as (Hinv & Hrange & _);
      [lia | lia | lia |].
    destruct (IH state1 block1 pos1 (fst (addLength n0 n1 (len msg)))
                (snd (addLength n0 n1 (len msg))) calls1 Hblock1 Hpos1
                Hrange Hrest)
      as (state' & block' & pos' & n0' & n1' & calls' & Hfeed & Hinv'
          & Hrange').
    exists state', block', pos', n0', n1', calls'.
    rewrite len_app. repeat split; try lia. exact Hfeed.
Qed.

(** X10. The two counter words count the bytes exactly, however many
    they are, when every chunk has at most 2^32 bytes: after the chunks
    went through [update], [n1 * 2^32 + n0] is their total length, with
    [n0] a 32-bit word. *)
Theorem feed_counts (chunks : list Uint8Array) (calls : nat) :
  Forall (fun msg => len msg <= 2 ^ 32) chunks ->
  exists state block pos n0 n1 calls',
    (block <- new_Uint8Array BLOCK_SIZE ;;
     feed (initial_state, block, 0, 0, 0) chunks) calls
    = Ok ((state, block, pos, n0, n1), calls')
    /\ n1 * 2 ^ 32 + n0 = len (List.concat chunks)
    /\ 0 <= n0 < 2 ^ 32.
Proof.
  intros Hall. unfold bind, BLOCK_SIZE.
  rewrite new_Uint8Array_ok by lia.
  destruct (feed_counts_from chunks initial_state (repeat x00 (Z.to_nat 64))
              0 0 0 calls)
    as (state' & block' & pos' & n0' & n1' & calls' & Hfeed & Hinv & Hrange);
    [reflexivity | lia | lia | exact Hall |].
  exists state', block', pos', n0', n1', calls'.
  repeat split; try lia. exact Hfeed.
Qed.

(** X10, at an input. *)
Lemma feed_counts_witness :
  Forall (fun msg => len msg <= 2 ^ 32) [["a"%byte]; ["b"%byte; "c"%byte]]
  /\ exists state block pos n0 n1 calls',
       (block <- new_Uint8Array BLOCK_SIZE ;;
        feed (initial_state, block, 0, 0, 0)
          [["a"%byte]; ["b"%byte; "c"%byte]]) O
       = Ok ((state, block, pos, n0, n1), calls')
       /\ n1 * 2 ^ 32 + n0
          = len (List.concat [["a"%byte]; ["b"%byte; "c"%byte]])
       /\ 0 <= n0 < 2 ^ 32.
Proof.
  assert (H : Forall (fun msg => len msg <= 2 ^ 32)
                [["a"%byte]; ["b"%byte; "c"%byte]]).
  { repeat constructor; discriminate. }
  split; [exact H |].
  apply (feed_counts [["a"%byte]; ["b"%byte; "c"%byte]] O). exact H.
Defined.

(** X11. One call of [addLength] on a 32-bit low word counts the bytes
    exactly when, and only when, the low word and the length add up to
    less than 2^33: it adds one carry at most. *)
Theorem addLength_exact_iff (n0 n1 length : Z) :
  0 <= n0 < 2 ^ 32 -> 0 <= length ->
  (snd (addLength n0 n1 length) * 2 ^ 32 + fst (addLength n0 n1 length)
   = n1 * 2 ^ 32 + n0 + length
   <-> n0 + length < 2 ^ 33).
Proof.
  intros Hn0 Hlength. split.
  - unfold addLength. cbn [fst snd]. rewrite shru_0.
    pose proof (Z.mod_pos_bound (n0 + length) (2 ^ 32) ltac:(lia)) as Hm.
    destruct (Z.gtb_spec (n0 + length) 0xffffffff); lia.
  - intros Hsum.
    destruct (addLength_spec n0 n1 length) as (Hinv & _); [lia | lia | lia |].
    exact Hinv.
Qed.

(** X11, at an input: 2^32 bytes after 5. *)
Lemma addLength_exact_iff_witness :
  0 <= 5 < 2 ^ 32 /\ 0 <= 2 ^ 32
  /\ (snd (addLength 5 0 (2 ^ 32)) * 2 ^ 32 + fst (addLength 5 0 (2 ^ 32))
      = 0 * 2 ^ 32 + 5 + 2 ^ 32
      <-> 5 + 2 ^ 32 < 2 ^ 33).
Proof.
  split; [lia |]. split; [lia |].
  apply (addLength_exact_iff 5 0 (2 ^ 32)); lia.
Defined.

Lemma ToUint32_shru_29 (n0 : Z) :
  word n0 -> JS.ToUint32 (n0 .>>> 29) = n0 / 2 ^ 29.
Proof.
  unfold word. intros Hn0. unfold JS.shru.
  rewrite shift_count by lia.
  rewrite (ToUint32_word n0) by exact Hn0.
  rewrite Z.shiftr_div_pow2 by lia.
  apply ToUint32_word. unfold word. split.
  - apply Z.div_pos; lia.
  - apply Z.div_lt_upper_bound; lia.
Qed.

(** X12. For a byte count [n1 * 2^32 + n0] below 2^61, the last eight
    bytes of the padding buffer are the count in bits, [8 * (n1 * 2^32 +
    n0)], as a little-endian 64-bit number. *)
Theorem length_field (pos n0 n1 : Z) (calls : nat) :
  0 <= pos < 64 -> 0 <= n0 < 2 ^ 32 -> 0 <= n1 < 2 ^ 29 ->
  exists pad n0s n1s,
    md5_pad pos n0 n1 calls = Ok ((pad, n0s, n1s), calls)
    /\ le_decode (last_bytes 8 pad) = 8 * (n1 * 2 ^ 32 + n0).
Proof.
  intros Hpos Hn0 Hn1.
  destruct (padding_spec pos n0 n1 Hpos) as (head & Hpad & _).
  eexists _, _, _. split.
  { rewrite md5_pad_ok by lia. rewrite Hpad. reflexivity. }
  assert (Hlast8 : last_bytes 8
                     (head ++ counter_bytes (n0 .<< 3)
                      ++ counter_bytes ((n1 .<< 3) .| (n0 .>>> 29)))
                   = counter_bytes (n0 .<< 3)
                     ++ counter_bytes ((n1 .<< 3) .| (n0 .>>> 29)))
    by apply (last_bytes_app head
                (counter_bytes (n0 .<< 3)
                 ++ counter_bytes ((n1 .<< 3) .| (n0 .>>> 29)))).
  rewrite Hlast8.
  rewrite le_decode_app, !le_decode_word.
  change (256 ^ Z.of_nat (List.length (counter_bytes (n0 .<< 3))))
    with (2 ^ 32).
  rewrite ToUint32_lor, !ToUint32_shl3, ToUint32_shru_29
    by (unfold word; lia).
  assert (Hhi : 0 <= n0 / 2 ^ 29 < 2 ^ 3).
  { split; [apply Z.div_pos; lia | apply Z.div_lt_upper_bound; lia]. }
  rewrite (Z.mod_small (8 * n1)) by lia.
  rewrite Z.lor_comm.
  replace (8 * n1) with (n1 * 2 ^ 3) by lia.
  rewrite lor_disjoint by lia.
  pose proof (Z.div_mod (8 * n0) (2 ^ 32) ltac:(lia)) as Hdm.
  replace (n0 / 2 ^ 29) with (8 * n0 / 2 ^ 32).
  - lia.
  - change (2 ^ 32) with (8 * 2 ^ 29).
    rewrite Z.div_mul_cancel_l by lia. reflexivity.
Qed.

(** X12, at an input: 2^32 + 2^31 bytes counted. *)
Lemma length_field_witness :
  0 <= 0 < 64 /\ 0 <= 2 ^ 31 < 2 ^ 32 /\ 0 <= 1 < 2 ^ 29
  /\ exists pad n0s n1s,
       md5_pad 0 (2 ^ 31) 1 O = Ok ((pad, n0s, n1s), O)
       /\ le_decode (last_bytes 8 pad) = 8 * (1 * 2 ^ 32 + 2 ^ 31).
Proof.
  split; [lia |]. split; [lia |]. split; [lia |].
  apply (length_field 0 (2 ^ 31) 1 O); lia.
Defined.

End Counters.

(* ================================================================== *)
(** * The padded message *)

Section Padded.

Lemma padLen_of_range (pos : Z) :
  0 <= pos < 64 ->
  9 <= padLen_of pos <= 72 /\ (pos + padLen_of pos) mod 64 = 0.
Proof.
  intros Hpos. unfold padLen_of, BLOCK_SIZE.
  destruct (Z.ltb_spec (64 - pos) 9).
  - split; [lia |]. replace (pos + (64 - pos + 64)) with (2 * 64) by lia.
    reflexivity.
  - split; [lia |]. replace (pos + (64 - pos)) with (1 * 64) by lia.
    reflexivity.
Qed.

(** The padding buffer, byte by byte. *)
Lemma padding_explicit (pos n0 n1 : Z) :
  0 <= pos < 64 ->
  padding pos n0 n1
  = ((x80 :: repeat x00 (Z.to_nat (padLen_of pos) - 9))
     ++ counter_bytes (n0 .<< 3)
     ++ counter_bytes ((n1 .<< 3) .| (n0 .>>> 29)),
     n0 .<< 3, (n1 .<< 3) .| (n0 .>>> 29)).
Proof.
  intros Hpos. destruct (padLen_of_range pos Hpos) as [Hlen _].
  unfold padding, md5_pad, bind.
  fold (padLen_of pos).
  rewrite new_Uint8Array_ok by lia.
  cbv zeta. unfold ret. cbv beta iota.
  rewrite !len_put.
  assert (Hrep : len (repeat x00 (Z.to_nat (padLen_of pos))) = padLen_of pos).
  { unfold len. rewrite repeat_length. lia. }
  rewrite Hrep.
  replace (Z.to_nat (padLen_of pos))
    with (S (Z.to_nat (padLen_of pos) - 9) + 8)%nat at 1 by lia.
  rewrite repeat_app.
  assert (Hhead : len (repeat x00 (S (Z.to_nat (padLen_of pos) - 9)))
                  = padLen_of pos - 8).
  { unfold len. rewrite repeat_length. lia. }
  rewrite put_app_l by lia.
  rewrite put_last8 by (rewrite len_put; exact Hhead).
  reflexivity.
Qed.

(** X13. The padding buffer is the byte 0x80, then zeros, then the eight
    length bytes; it has 9 to 72 bytes and ends, after the [pos] bytes
    that are buffered, on a block boundary. *)
Theorem padding_contents (pos n0 n1 : Z) (calls : nat) :
  0 <= pos < 64 ->
  exists pad n0s n1s,
    md5_pad pos n0 n1 calls = Ok ((pad, n0s, n1s), calls)
    /\ 9 <= len pad <= 72
    /\ (pos + len pad) mod 64 = 0
    /\ firstn (List.length pad - 8) pad
       = x80 :: repeat x00 (List.length pad - 9).
Proof.
  intros Hpos. destruct (padLen_of_range pos Hpos) as [Hlen Hmod].
  eexists _, _, _. split.
  { rewrite md5_pad_ok by lia. rewrite padding_explicit by exact Hpos.
    reflexivity. }
  set (zeros := repeat x00 (Z.to_nat (padLen_of pos) - 9)).
  set (tail := counter_bytes (n0 .<< 3)
               ++ counter_bytes ((n1 .<< 3) .| (n0 .>>> 29))).
  assert (Hzeros : List.length zeros = (Z.to_nat (padLen_of pos) - 9)%nat)
    by apply repeat_length.
  assert (Htail : List.length tail = 8%nat) by reflexivity.
  assert (Hpad : List.length ((x80 :: zeros) ++ tail)
                 = Z.to_nat (padLen_of pos)).
  { rewrite length_app, Htail. cbn [List.length]. lia. }
  unfold len. rewrite Hpad.
  split; [lia |]. split; [rewrite Z2Nat.id by lia; exact Hmod |].
  rewrite firstn_app_exact by (cbn [List.length]; lia).
  reflexivity.
Qed.

(** X13, at an input. *)
Lemma padding_contents_witness :
  0 <= 60 < 64
  /\ exists pad n0s n1s,
       md5_pad 60 60 0 O = Ok ((pad, n0s, n1s), O)
       /\ 9 <= len pad <= 72
       /\ (60 + len pad) mod 64 = 0
       /\ firstn (List.length pad - 8) pad
          = x80 :: repeat x00 (List.length pad - 9).
Proof.
  split; [lia |]. apply (padding_contents 60 60 0 O). lia.
Defined.

(** X14. [md5] invokes the compressor once per block of the padded
    message: [(length + 72) / 64] times, that is once more than the
    message has whole blocks, and twice more when fewer than 9 bytes are
    left in its last block. *)
Theorem md5_calls (msg : Uint8Array) (calls : nat) :
  exists digest : ArrayBuffer,
    md5 msg calls
    = Ok (digest, (calls + Z.to_nat ((len msg + 72) / 64))%nat).
Proof.
  pose proof (len_nonneg msg) as Hmsg.
  unfold md5, bind, BLOCK_SIZE.
  rewrite new_Uint8Array_ok by lia.
  destruct (update_spec initial_state (repeat x00 (Z.to_nat 64)) 0 0 0 msg
              calls)
    as (state1 & block1 & pos1 & calls1 & Hrun & Hblock1 & Hpos1 & Hmod1 & _);
    [reflexivity | lia |].
  destruct (update_run_calls initial_state (repeat x00 (Z.to_nat 64)) 0 0 0 msg
              calls) as (ctx1 & Hcalls1); [reflexivity | lia |].
  assert (Hc1 : calls1 = (calls + Z.to_nat ((0 + len msg) / 64))%nat)
    by congruence.
  rewrite Hrun.
  unfold md5_final, bind.
  rewrite md5_pad_ok by lia.
  destruct (padLen_of_range pos1 Hpos1) as [Hlen Hmod].
  pose proof (len_padding pos1 (fst (addLength 0 0 (len msg)))
                (snd (addLength 0 0 (len msg))) ltac:(lia)) as Hpadlen.
  destruct (padding pos1 _ _) as [[pad n0s] n1s]. cbn [fst] in Hpadlen.
  destruct (update_spec state1 block1 pos1 n0s n1s pad calls1 Hblock1 Hpos1)
    as (state2 & block2 & pos2 & calls2 & Hrun2 & _).
  destruct (update_run_calls state1 block1 pos1 n0s n1s pad calls1 Hblock1 Hpos1)
    as (ctx2 & Hcalls2).
  assert (Hc2 : calls2 = (calls1 + Z.to_nat ((pos1 + len pad) / 64))%nat)
    by congruence.
  rewrite Hrun2, md5_digest_ok.
  exists (digest_bytes state2).
  apply f_equal. apply (f_equal (pair (digest_bytes state2))).
  rewrite Hc2, Hc1, Hpadlen. rewrite Z.add_0_l in *.
  pose proof (Z.div_mod (len msg) 64 ltac:(lia)) as Hdm.
  rewrite <- Hmod1 in Hdm.
  assert (Hq : 0 <= len msg / 64) by (apply Z.div_pos; lia).
  unfold padLen_of, BLOCK_SIZE in *.
  destruct (Z.ltb_spec (64 - pos1) 9).
  - replace (pos1 + (64 - pos1 + 64)) with (2 * 64) by lia.
    rewrite Z.div_mul by lia.
    rewrite <- (Z.div_unique (len msg + 72) 64 (len msg / 64 + 2) (pos1 - 56))
      by lia.
    lia.
  - replace (pos1 + (64 - pos1)) with (1 * 64) by lia.
    rewrite Z.div_mul by lia.
    rewrite <- (Z.div_unique (len msg + 72) 64 (len msg / 64 + 1) (pos1 + 8))
      by lia.
    lia.
Qed.

(** The bytes of whole blocks are absorbed block after block. *)
Lemma absorb_blocks (n : nat) :
  forall (state : State) (bytes : list byte),
    List.length bytes = (64 * n)%nat ->
    absorb (state, []) bytes
    = (fold_left hash (blocks64 n bytes) state, []).
Proof.
  induction n as [| n IH]; intros state bytes Hlen.
  - destruct bytes; [reflexivity | discriminate].
  - cbn [blocks64 fold_left].
    rewrite <- (firstn_skipn 64 bytes) at 1.
    rewrite absorb_app, absorb_fill.
    + cbn [app]. apply IH. rewrite length_skipn. lia.
    + cbn [List.length]. lia.
    + rewrite length_firstn. cbn [List.length]. lia.
Qed.

Lemma blocks64_concat (n : nat) :
  forall bytes : list byte,
    List.length bytes = (64 * n)%nat ->
    List.concat (blocks64 n bytes) = bytes
    /\ Forall (fun b => List.length b = 64%nat) (blocks64 n bytes).
Proof.
  induction n as [| n IH]; intros bytes Hlen.
  - destruct bytes; [split; [reflexivity | constructor] | discriminate].
  - cbn [blocks64 List.concat].
    destruct (IH (skipn 64 bytes)) as [Hcat Hall].
    { rewrite length_skipn. lia. }
    split.
    + rewrite Hcat. apply firstn_skipn.
    + constructor; [| exact Hall]. rewrite length_firstn. lia.
Qed.

(** X15. [md5] is the compressor iterated from the initial state over the
    64-byte blocks of the padded message, the message followed by the
    padding buffer, and the digest is the state it ends in. *)
Theorem md5_iterated (msg : Uint8Array) :
  exists (pad : Uint8Array) (n0s n1s : Z) (blocks : list (list byte)),
    md5_pad (len msg mod 64) (fst (addLength 0 0 (len msg)))
      (snd (addLength 0 0 (len msg))) O
    = Ok ((pad, n0s, n1s), O)
    /\ List.concat blocks = msg ++ pad
    /\ Forall (fun b => List.length b = 64%nat) blocks
    /\ eval (md5 msg)
       = Ok (digest_bytes (fold_left hash blocks initial_state)).
Proof.
  pose proof (len_nonneg msg) as Hmsg.
  pose proof (Z.mod_pos_bound (len msg) 64 ltac:(lia)) as Hpos.
  destruct (padLen_of_range (len msg mod 64) Hpos) as [Hlen Hmod].
  pose proof (len_padding (len msg mod 64) (fst (addLength 0 0 (len msg)))
                (snd (addLength 0 0 (len msg))) ltac:(lia)) as Hpadlen.
  rewrite md5_stream_correct. unfold md5_stream.
  rewrite md5_pad_ok by lia.
  destruct (addLength 0 0 (len msg)) as [n0 n1]. cbn [fst snd] in *.
  destruct (padding (len msg mod 64) n0 n1) as [[pad n0s] n1s].
  cbn [fst] in Hpadlen.
  assert (Hn : List.length (msg ++ pad)
               = (64 * Z.to_nat ((len msg + len pad) / 64))%nat).
  { rewrite length_app. unfold len in *.
    rewrite Hpadlen in *.
    rewrite Z.add_mod_idemp_l in Hmod by lia.
    pose proof (Z.div_mod (Z.of_nat (List.length msg)
                           + padLen_of (Z.of_nat (List.length msg) mod 64))
                  64 ltac:(lia)) as Hdm.
    assert (0 <= (Z.of_nat (List.length msg)
                  + padLen_of (Z.of_nat (List.length msg) mod 64)) / 64)
      by (apply Z.div_pos; lia).
    lia. }
  exists pad, n0s, n1s,
    (blocks64 (Z.to_nat ((len msg + len pad) / 64)) (msg ++ pad)).
  destruct (blocks64_concat _ _ Hn) as [Hcat Hall].
  split; [reflexivity |]. split; [exact Hcat |]. split; [exact Hall |].
  rewrite (absorb_blocks _ _ _ Hn). reflexivity.
Qed.

End Padded.

(* ================================================================== *)
(** * The size of the working variables *)

Section Magnitude.

Lemma int32_iff_shiftr (z : Z) :
  - 2 ^ 31 <= z < 2 ^ 31 <-> Z.shiftr z 31 = 0 \/ Z.shiftr z 31 = -1.
Proof.
  rewrite Z.shiftr_div_pow2 by lia.
  pose proof (Z.div_mod z (2 ^ 31) ltac:(lia)) as Hdm.
  pose proof (Z.mod_pos_bound z (2 ^ 31) ltac:(lia)) as Hm.
  split.
  - intros Hz. destruct (Z_lt_le_dec z 0).
    + right. symmetry. apply (Z.div_unique _ _ _ (z + 2 ^ 31)); lia.
    + left. apply Z.div_small. lia.
  - intros [H | H]; rewrite H in Hdm; lia.
Qed.

Lemma or_int32 (x y : Z) : - 2 ^ 31 <= x .| y < 2 ^ 31.
Proof.
  unfold JS.or. apply int32_iff_shiftr. rewrite Z.shiftr_lor.
  destruct (proj1 (int32_iff_shiftr _) (ToInt32_range x)) as [-> | ->];
    destruct (proj1 (int32_iff_shiftr _) (ToInt32_range y)) as [-> | ->];
    cbn; auto.
Qed.

Lemma rol32_int32 (x n : Z) : - 2 ^ 31 <= rol32 x n < 2 ^ 31.
Proof. unfold rol32. apply or_int32. Qed.

Lemma assignment_bound (lo hi e : Z) (k : Z -> Z * Z * Z * Z) :
  lo <= e < hi -> (forall x, lo <= x < hi -> Exact4 (k x)) ->
  Exact4 (assignment e k).
Proof. intros He Hk. unfold assignment. apply Hk. exact He. Qed.

(** One assignment [v + rol32 t n]: the bounds known of [v], widened by
    2^31 on each side. *)
Ltac bound_step :=
  lazymatch goal with
  | |- Exact4 (assignment (?v + rol32 ?t ?n) _) =>
      lazymatch goal with
      | H : ?lo <= v < ?hi |- _ =>
          let lo' := eval cbv in (lo - 2 ^ 31) in
          let hi' := eval cbv in (hi + 2 ^ 31) in
          apply (assignment_bound lo' hi');
          [ pose proof (rol32_int32 t n); lia | intros ? ?; cbv beta ]
      end
  end.

(** X16. On a state of 32-bit words, the working variables that the 64
    assignments of [hash] end with are integers below 2^38 in magnitude:
    far inside the range where the additions of JavaScript numbers are
    exact. *)
Theorem hash_rounds_exact (s0 s1 s2 s3 : Z) (block : Uint8Array) :
  State_ok (s0, s1, s2, s3) ->
  Exact4 (hash_rounds (s0, s1, s2, s3) block).
Proof.
  unfold State_ok, word. intros (H0 & H1 & H2 & H3).
  change (2 ^ 32) with 4294967296 in *.
  cbv beta iota zeta delta [hash_rounds].
  do 64 bound_step.
  unfold Exact4. lia.
Qed.

(** X16, at the initial state. *)
Lemma hash_rounds_exact_witness :
  State_ok (0x67452301, 0xefcdab89, 0x98badcfe, 0x10325476)
  /\ Exact4 (hash_rounds (0x67452301, 0xefcdab89, 0x98badcfe, 0x10325476)
               (repeat x00 64)).
Proof.
  assert (H : State_ok (0x67452301, 0xefcdab89, 0x98badcfe, 0x10325476)).
  { unfold State_ok, word. lia. }
  split; [exact H |].
  apply (hash_rounds_exact 0x67452301 0xefcdab89 0x98badcfe 0x10325476
           (repeat x00 64)).
  exact H.
Defined.

End Magnitude.

(* ================================================================== *)
(** * The state words that the compressor reads *)

Section StateWords.

Lemma assignment_range (P : Z * Z * Z * Z -> Prop) (lo hi e : Z)
    (k : Z -> Z * Z * Z * Z) :
  lo <= e < hi -> (forall x, lo <= x < hi -> P (k x)) -> P (assignment e k).
Proof. intros He Hk. unfold assignment. apply Hk. exact He. Qed.

(** One assignment [v + rol32 t n], for any property of the four values
    that the assignments end with. *)
Ltac range_step :=
  lazymatch goal with
  | |- ?P (assignment (?v + rol32 ?t ?n) _) =>
      lazymatch goal with
      | H : ?lo <= v < ?hi |- _ =>
          let lo' := eval cbv in (lo - 2 ^ 31) in
          let hi' := eval cbv in (hi + 2 ^ 31) in
          apply (assignment_range P lo' hi');
          [ pose proof (rol32_int32 t n); lia | intros ? ?; cbv beta ]
      end
  end.

Lemma hash_rounds_below (s0 s1 s2 s3 : Z) (block : Uint8Array) :
  State_within (s0, s1, s2, s3) ->
  Below52 (hash_rounds (s0, s1, s2, s3) block).
Proof.
  unfold State_within. intros (H0 & H1 & H2 & H3).
  change (2 ^ 51) with 2251799813685248 in *.
  change (- 2251799813685248) with (-2251799813685248) in *.
  cbv beta iota zeta delta [hash_rounds].
  do 64 range_step.
  unfold Below52. lia.
Qed.

(** X5. [hash] reads the low 32 bits of the state words: a state whose
    words are not normalised (negative, or 2^32 and more), but below 2^51
    in magnitude, is compressed as the state of the same words modulo
    2^32.  The bound keeps the program's additions exact: the working
    variables stay below 2^52 in magnitude, and with them every sum that
    [hash] forms stays below 2^53. *)
Theorem hash_state_low_bits (s0 s1 s2 s3 : Z) (block : Uint8Array) :
  State_within (s0, s1, s2, s3) ->
  hash (s0, s1, s2, s3) block
  = hash (JS.ToUint32 s0, JS.ToUint32 s1, JS.ToUint32 s2, JS.ToUint32 s3)
      block
  /\ Below52 (hash_rounds (s0, s1, s2, s3) block).
Proof.
  intros Hwithin.
  split; [| apply hash_rounds_below; exact Hwithin].
  assert (Hidem : forall z, JS.ToUint32 (JS.ToUint32 z) = JS.ToUint32 z).
  { intros z. rewrite !ToUint32_mod. apply Z.mod_mod. lia. }
  pose proof (rounds_spec s0 s1 s2 s3 _ _ _ _ block
                eq_refl eq_refl eq_refl eq_refl) as H1.
  pose proof (rounds_spec _ _ _ _ _ _ _ _ block
                (Hidem s0) (Hidem s1) (Hidem s2) (Hidem s3)) as H2.
  unfold hash.
  destruct (hash_rounds (s0, s1, s2, s3) block) as [[[a b] c] d].
  destruct (hash_rounds _ block) as [[[a2 b2] c2] d2].
  destruct (Rfc.rounds _ _) as [[[a' b'] c'] d'].
  unfold Low4, Low in H1, H2.
  destruct H1 as (Ha & Hb & Hc & Hd). destruct H2 as (Ha2 & Hb2 & Hc2 & Hd2).
  f_equal; [f_equal; [f_equal |] |];
    apply ToUint32_add_congr; rewrite ?Hidem; congruence.
Qed.

(** X5, at a state with a negative word and words of 2^32 and more. *)
Lemma hash_state_low_bits_witness :
  State_within (-1, 2 ^ 32 + 5, 2 ^ 40, - 2 ^ 50)
  /\ hash (-1, 2 ^ 32 + 5, 2 ^ 40, - 2 ^ 50) (repeat x00 64)
     = hash (JS.ToUint32 (-1), JS.ToUint32 (2 ^ 32 + 5), JS.ToUint32 (2 ^ 40),
             JS.ToUint32 (- 2 ^ 50))
         (repeat x00 64)
  /\ Below52 (hash_rounds (-1, 2 ^ 32 + 5, 2 ^ 40, - 2 ^ 50) (repeat x00 64)).
Proof.
  assert (H : State_within (-1, 2 ^ 32 + 5, 2 ^ 40, - 2 ^ 50)).
  { unfold State_within. lia. }
  split; [exact H |].
  apply (hash_state_low_bits (-1) (2 ^ 32 + 5) (2 ^ 40) (- 2 ^ 50)
           (repeat x00 64)).
  exact H.
Defined.

End StateWords.
